(** * webext-bridge: the window-context router, embedded in Rocq

    The development follows the two source modules.

    - [Utils] embeds [src/utils.ts]: the endpoint pattern [ENDPOINT_RE],
      [parseEndpoint] and [isInternalEndpoint].
    - [Internal] embeds the router and the forwarder of [src/internal.ts]:
      [routeMessage], [handleInboundMessage] with its two closures
      [handleReply] and [handleNewMessage], [routeMessageThroughWindow] with
      the two callbacks it installs, [ensureNamespaceSet] and
      [setNamespace].

    JavaScript values are a first-order datatype ([Js.JsVal]).  The module
    variables of [internal.ts] ([namespace], [openTransactions],
    [onMessageListeners]) and the browser objects the file creates (message
    channels, retry timers) form an explicit [State] that every function
    threads; what leaves the module (promise settlements, handler calls,
    [window.postMessage]) is appended to the state's [trace].  The event
    loop is a list of events handed to the installed callbacks, one at a
    time.

    What the file uses but does not define is a parameter, gathered in the
    class [Host]: the identity drawn by [uuid()], the global scope [self],
    the [serializeError] function of the serialize-error package and the
    language's string conversion.

    Two limits of the model.  A handler is a function of its argument: what
    it does to the tables of the router while it runs is not modelled, and
    [handleNewMessage] resumes after [await] in the state it was called in.
    Objects are ordinary: every property is a writable data property. *)

From Stdlib Require Import ZArith String Ascii List Bool Lia DecimalString.
From Stdlib Require DecimalNat DecimalFacts.
From stdpp Require Import gmap strings list.
Import ListNotations.

Set Warnings "-register-all".

(* ===================================================================== *)
(** * JavaScript values *)
(* ===================================================================== *)

Module Js.

(** Values that travel in envelopes or are thrown by handlers.  Numbers are
    integers (the router never computes with them).  An object carries the
    [name] of the error class its prototype chain belongs to ([None] for a
    plain object, whose prototype is [Object.prototype]) and its own
    properties in insertion order, each with its enumerable flag. *)
Inductive JsVal : Type :=
| JUndefined
| JNull
| JBool (b : bool)
| JNum (n : Z)
| JStr (s : string)
| JArr (items : list JsVal)
| JObj (proto : option string) (own : list (string * (bool * JsVal))).

(** The own properties of an object. *)
Definition Props : Type := list (string * (bool * JsVal)).

(** How an evaluation ends: with a value, or with a thrown value. *)
Inductive Completion (A : Type) : Type :=
| Normal (a : A)
| Throw (e : JsVal).
Arguments Normal {A} a.
Arguments Throw {A} e.

(** ToBoolean, as used by [if (err)]. *)
Definition truthy (v : JsVal) : bool :=
  match v with
  | JUndefined | JNull => false
  | JBool b => b
  | JNum n => negb (n =? 0)%Z
  | JStr s => negb (String.eqb s EmptyString)
  | JArr _ | JObj _ _ => true
  end.

Fixpoint lookup_own (k : string) (own : Props) : option (bool * JsVal) :=
  match own with
  | [] => None
  | (k', p) :: rest => if String.eqb k k' then Some p else lookup_own k rest
  end.

(** The canonical numeric key of index [i]. *)
Definition index_key (i : nat) : string := NilEmpty.string_of_uint (Nat.to_uint i).

(** The integer-indexed elements of an array, or of a string, keyed. *)
Definition indexed (items : list JsVal) : list (string * JsVal) :=
  combine (map index_key (seq 0 (length items))) items.

Definition chars (s : string) : list JsVal :=
  map (fun c => JStr (String c EmptyString)) (list_ascii_of_string s).

(** The enumerable string-keyed properties of a value in the order
    [for (const prop in v)] visits them (an object of this datatype inherits
    no enumerable property). *)
Definition enumerable_entries (v : JsVal) : list (string * JsVal) :=
  match v with
  | JObj _ own =>
      flat_map (fun kp : string * (bool * JsVal) =>
                  if fst (snd kp) then [(fst kp, snd (snd kp))] else []) own
  | JArr items => indexed items
  | JStr s => indexed (chars s)
  | _ => []
  end.

Definition for_in_keys (v : JsVal) : list string := map fst (enumerable_entries v).

Fixpoint assoc (k : string) (l : list (string * JsVal)) : option JsVal :=
  match l with
  | [] => None
  | (k', x) :: rest => if String.eqb k k' then Some x else assoc k rest
  end.

(** The value of the own enumerable property [k] of [v], when it has one. *)
Definition own_enumerable (v : JsVal) (k : string) : option JsVal :=
  match v with
  | JObj _ own =>
      match lookup_own k own with
      | Some (true, x) => Some x
      | _ => None
      end
  | _ => assoc k (enumerable_entries v)
  end.

(** What an instance inherits from the prototype of its error class:
    [name] is the class name and [message] the empty string. *)
Definition inherited (proto : option string) (k : string) : JsVal :=
  match proto with
  | Some cls =>
      if String.eqb k "name" then JStr cls
      else if String.eqb k "message" then JStr EmptyString
      else JUndefined
  | None => JUndefined
  end.

(** Property read [v[k]] on a value other than [undefined] and [null]. *)
Definition get (v : JsVal) (k : string) : JsVal :=
  match v with
  | JObj proto own =>
      match lookup_own k own with
      | Some (_, x) => x
      | None => inherited proto k
      end
  | JArr items =>
      if String.eqb k "length" then JNum (Z.of_nat (length items))
      else match assoc k (indexed items) with Some x => x | None => JUndefined end
  | JStr s =>
      if String.eqb k "length" then JNum (Z.of_nat (String.length s))
      else match assoc k (indexed (chars s)) with Some x => x | None => JUndefined end
  | _ => JUndefined
  end.

(** Assignment [o[k] = x] on the own properties of an ordinary object: an
    existing own property keeps its place and its flag, a new one is
    appended as enumerable. *)
Fixpoint assign (k : string) (x : JsVal) (own : Props) : Props :=
  match own with
  | [] => [(k, (true, x))]
  | (k', (e, y)) :: rest =>
      if String.eqb k k' then (k', (e, x)) :: rest
      else (k', (e, y)) :: assign k x rest
  end.

(** What a global binding holds, as far as [typeof] and [new] can tell: a
    function, with what [new f(arg)] does, or anything else. *)
Inductive GlobalValue : Type :=
| GFunction (construct : JsVal -> Completion (option string * Props))
| GOther.

(** An instance of an error class as its constructor leaves it:
    [message] is an own, non-enumerable property. *)
Definition error_instance (cls message : string) : JsVal :=
  JObj (Some cls) [("message", (false, JStr message))].

End Js.

(* ===================================================================== *)
(** * Endpoints, envelopes and handler arguments ([types.ts]) *)
(* ===================================================================== *)

(** The [tabId] of an endpoint: [null], [NaN] or a number. *)
Inductive TabId : Type :=
| TabNull
| TabNaN
| TabNum (n : N).

Module Endpoint.
Record t : Type := mk {
  context : option string;
  tabId : TabId
}.
End Endpoint.

(** The argument a handler receives. *)
Module IBridgeMessage.
Record t : Type := mk {
  sender : option Endpoint.t;
  id : string;
  data : Js.JsVal;
  timestamp : Z
}.
End IBridgeMessage.

(** The envelope.  [origin] and [destination] are [None] when null or
    undefined; [err] and [data] are [JUndefined] when absent. *)
Module IInternalMessage.
Record t : Type := mk {
  origin : option Endpoint.t;
  destination : option Endpoint.t;
  transactionId : string;
  hops : list string;
  messageID : string;
  messageType : string;
  err : Js.JsVal;
  data : Js.JsVal;
  timestamp : Z
}.
End IInternalMessage.

(* ===================================================================== *)
(** * [utils.ts] *)
(* ===================================================================== *)

Module Utils.

Fixpoint strip_prefix (p s : string) : option string :=
  match p with
  | EmptyString => Some s
  | String a p' =>
      match s with
      | String b s' => if Ascii.eqb a b then strip_prefix p' s' else None
      | EmptyString => None
      end
  end.

(** [\d] *)
Definition is_digit (c : ascii) : bool :=
  (48 <=? nat_of_ascii c)%nat && (nat_of_ascii c <=? 57)%nat.

Fixpoint all_digits (s : string) : bool :=
  match s with
  | EmptyString => true
  | String c s' => is_digit c && all_digits s'
  end.

(** [\d+] up to the end of the input. *)
Definition digits (s : string) : bool :=
  negb (String.eqb s EmptyString) && all_digits s.

(** The tail [(?:@(\d+))?$] of the pattern on what follows group 1: the
    value of group 2 when the tail matches. *)
Definition match_instance (rest : string) : option (option string) :=
  match rest with
  | EmptyString => Some None
  | String c ds =>
      if Ascii.eqb c "@" && digits ds then Some (Some ds) else None
  end.

(** The alternatives of group 1, in order; the flag marks the one that
    carries its own [$]. *)
Definition alternatives : list (string * bool) :=
  [ ("background", true); ("devtools", false); ("popup", false);
    ("options", false); ("content-script", false); ("window", false) ].

(** One alternative followed by the rest of the pattern: groups 1 and 2. *)
Definition match_alternative (s : string) (alt : string * bool)
  : option (string * option string) :=
  match strip_prefix (fst alt) s with
  | None => None
  | Some rest =>
      if snd alt then
        if String.eqb rest EmptyString then Some (fst alt, None) else None
      else
        match match_instance rest with
        | Some g2 => Some (fst alt, g2)
        | None => None
        end
  end.

Fixpoint first_match (s : string) (alts : list (string * bool))
  : option (string * option string) :=
  match alts with
  | [] => None
  | alt :: rest =>
      match match_alternative s alt with
      | Some r => Some r
      | None => first_match s rest
      end
  end.

(** [endpoint.match(ENDPOINT_RE)] for
    [/^((?:background$)|devtools|popup|options|content-script|window)(?:@(\d+))?$/]:
    the match array (whole match, group 1, group 2), or [None] for null. *)
Definition ENDPOINT_RE_match (endpoint : string) : option (list (option string)) :=
  match first_match endpoint alternatives with
  | Some (g1, g2) => Some [Some endpoint; Some g1; g2]
  | None => None
  end.

Fixpoint decimal_value (acc : N) (s : string) : N :=
  match s with
  | EmptyString => acc
  | String c s' => decimal_value (10 * acc + N.of_nat (nat_of_ascii c - 48)) s'
  end.

(** Unary plus on a captured group: [+undefined] is [NaN], and a run of
    digits is the number it spells (kept exact here; JavaScript rounds it
    to a double). *)
Definition unary_plus (g : option string) : TabId :=
  match g with
  | None => TabNaN
  | Some ds => TabNum (decimal_value 0 ds)
  end.

Definition parseEndpoint (endpoint : string) : Endpoint.t :=
  let m := match ENDPOINT_RE_match endpoint with Some groups => groups | None => [] end in
  let context := nth 1 m None in
  let tabId := nth 2 m None in
  {| Endpoint.context := context; Endpoint.tabId := unary_plus tabId |}.

Definition isInternalEndpoint (e : Endpoint.t) : bool :=
  match Endpoint.context e with
  | Some ctx => existsb (String.eqb ctx) ["content-script"; "background"; "devtools"]
  | None => false
  end.

(** The six context names of the grammar. *)
Definition context_names : list string := map fst alternatives.

(** The endpoint grammar, stated on its own: a context name, or a context
    name other than [background] followed by [@] and one or more digits. *)
Inductive endpoint_grammar : string -> Prop :=
| grammar_bare (c : string) :
    In c context_names -> endpoint_grammar c
| grammar_instance (c ds : string) :
    In c context_names -> c <> "background" -> digits ds = true ->
    endpoint_grammar (c +:+ "@" +:+ ds).

End Utils.

(* ===================================================================== *)
(** * [internal.ts] *)
(* ===================================================================== *)

Module Internal.
Import Js.
Import IInternalMessage.

(** What [internal.ts] takes from outside: the identity [uuid()] returned
    when the module was loaded, the global scope [self] (by property key),
    the language's ToString (property keys, error messages) and
    [serializeError] of the serialize-error package. *)
Class Host : Type := {
  runtimeId : string;
  self : string -> GlobalValue;
  ToString : JsVal -> string;
  serializeError : JsVal -> JsVal
}.

(** [export const context: RuntimeContext = 'window'] *)
Definition context : string := "window".

(** What [await cb(...)] gives: the handler's value, or what it threw (or
    rejected with). *)
Inductive HandlerResult : Type :=
| Returns (reply : JsVal)
| Throws (error : JsVal).

Definition OnMessageCallback : Type := IBridgeMessage.t -> HandlerResult.

(** What the module does to the outside world. *)
Inductive Effect : Type :=
| Resolve (transactionP : nat) (value : JsVal)
| Reject (transactionP : nat) (reason : JsVal)
| Invoke (messageID : string) (arg : IBridgeMessage.t)
| PostVerify (scope : JsVal) (ctx : string) (port2 : nat)
| PostRoute (scope : JsVal) (ctx : string) (payload : IInternalMessage.t)
| UnhandledRejection (reason : JsVal).

(** One call of [routeMessageThroughWindow]: the envelope it closes over
    (nothing in the module changes that object afterwards), whether
    [channel.port1.onmessage] still holds its callback, and whether the
    [retry] timer is still pending. *)
Record Attempt : Type := {
  msg : IInternalMessage.t;
  onmessage : bool;
  retry : bool
}.

(** The module variables, the channels and timers created so far (a
    channel and its timer share their index), and the effects so far,
    oldest first.  A pending transaction is the number of the promise whose
    [resolve]/[reject] pair the table holds. *)
Record State : Type := {
  namespace : JsVal;
  openTransactions : gmap string nat;
  onMessageListeners : gmap string OnMessageCallback;
  attempts : list Attempt;
  trace : list Effect
}.

Definition emit (st : State) (e : Effect) : State :=
  {| namespace := namespace st;
     openTransactions := openTransactions st;
     onMessageListeners := onMessageListeners st;
     attempts := attempts st;
     trace := trace st ++ [e] |}.

Definition with_transactions (st : State) (t : gmap string nat) : State :=
  {| namespace := namespace st;
     openTransactions := t;
     onMessageListeners := onMessageListeners st;
     attempts := attempts st;
     trace := trace st |}.

Definition with_attempts (st : State) (a : list Attempt) : State :=
  {| namespace := namespace st;
     openTransactions := openTransactions st;
     onMessageListeners := onMessageListeners st;
     attempts := a;
     trace := trace st |}.

Definition setNamespace (st : State) (nsps : JsVal) : State :=
  {| namespace := nsps;
     openTransactions := openTransactions st;
     onMessageListeners := onMessageListeners st;
     attempts := attempts st;
     trace := trace st |}.

(** A promise as its holder sees it, and what a call of [routeMessage]
    returns. *)
Inductive Settlement : Type :=
| Fulfilled
| Rejected (reason : JsVal).

Inductive Returned : Type :=
| Undefined
| Promise (settled : Settlement).

(** A call's outcome: the state it leaves, the envelope object it was given
    as the call leaves it (the code mutates it in place), and its result. *)
Record Outcome (R : Type) : Type := {
  state_after : State;
  message_after : IInternalMessage.t;
  result : R
}.
Arguments state_after {R} _.
Arguments message_after {R} _.
Arguments result {R} _.

Definition dquote : string := String (ascii_of_nat 34) EmptyString.

Definition namespace_error_message : string :=
  "webext-bridge uses window.postMessage to talk with other " +:+ dquote
  +:+ "window" +:+ dquote +:+ "(s), for message routing and stuff,"
  +:+ "which is global/conflicting operation in case there are other scripts using webext-bridge. "
  +:+ "Call Bridge#setNamespace(nsps) to isolate your app. Example: setNamespace('com.facebook.react-devtools'). "
  +:+ "Make sure to use same namespace across all your scripts whereever window.postMessage is likely to be used`".

Definition ensureNamespaceSet (st : State) : Completion unit :=
  match namespace st with
  | JStr s =>
      if (String.length s =? 0)%nat
      then Throw (error_instance "Error" namespace_error_message)
      else Normal tt
  | _ => Throw (error_instance "Error" namespace_error_message)
  end.

(** The body of [routeMessageThroughWindow(window, msg)]: a new channel and
    a new timer, the callback on [port1], and the probe posted with
    [port2]. *)
Definition routeMessageThroughWindow (st : State) (msg : IInternalMessage.t)
  : State * Completion unit :=
  match ensureNamespaceSet st with
  | Throw e => (st, Throw e)
  | Normal _ =>
      let channel := length (attempts st) in
      let st := with_attempts st
                  (attempts st ++ [{| msg := msg; onmessage := true; retry := true |}]) in
      (emit st (PostVerify (namespace st) context channel), Normal tt)
  end.

(** What the event loop delivers to the callbacks installed above. *)
Inductive Event : Type :=
| PortMessage (channel : nat)
| RetryTimeout (channel : nat).

#[export] Instance Event_eq_dec : EqDecision Event.
Proof. solve_decision. Defined.

(** [channel.port1.onmessage] of an attempt (lines 136-144). *)
Definition port1_onmessage (st : State) (channel : nat) (a : Attempt) : State :=
  let st := with_attempts st
              (<[channel := {| msg := msg a; onmessage := onmessage a; retry := false |}]>
                 (attempts st)) in
  emit st (PostRoute (namespace st) context (msg a)).

(** The [setTimeout] callback of an attempt (lines 132-135). *)
Definition retry_callback (st : State) (channel : nat) (a : Attempt)
  : State * Completion unit :=
  let st := with_attempts st
              (<[channel := {| msg := msg a; onmessage := false; retry := false |}]>
                 (attempts st)) in
  routeMessageThroughWindow st (msg a).

(** One event: a message on [port1] runs the callback the port holds, if
    any; a timer fires once, unless cleared. *)
Definition deliver (st : State) (ev : Event) : State * Completion unit :=
  match ev with
  | PortMessage channel =>
      match attempts st !! channel with
      | Some a => if onmessage a then (port1_onmessage st channel a, Normal tt)
                  else (st, Normal tt)
      | None => (st, Normal tt)
      end
  | RetryTimeout channel =>
      match attempts st !! channel with
      | Some a => if retry a then retry_callback st channel a else (st, Normal tt)
      | None => (st, Normal tt)
      end
  end.

(** A run of the event loop (an exception out of a callback is reported by
    the browser and the loop goes on). *)
Fixpoint run (st : State) (evs : list Event) : State :=
  match evs with
  | [] => st
  | ev :: rest => run (fst (deliver st ev)) rest
  end.

Definition is_PostRoute (e : Effect) : bool :=
  match e with PostRoute _ _ _ => true | _ => false end.

(** The full envelopes broadcast so far, and how many they are. *)
Definition posted (tr : list Effect) : list Effect := List.filter is_PostRoute tr.

Definition broadcasts (tr : list Effect) : nat := length (posted tr).

(** [typeof v === 'string'] with at least one character. *)
Definition nonempty_string (v : JsVal) : Prop :=
  exists s, v = JStr s /\ s <> EmptyString.

(** An attempt that is over and will do nothing more: its callback is
    detached and its timer is neither pending. *)
Definition inert (a : Attempt) : Prop := onmessage a = false /\ retry a = false.

(** The effect is a broadcast of the envelope [m]. *)
Definition carries (m : IInternalMessage.t) (e : Effect) : Prop :=
  exists scope ctx, e = PostRoute scope ctx m.

(** Apart from the attempt at index [i], every attempt for [m] is inert. *)
Definition others_inert (m : IInternalMessage.t) (i : nat) (l : list Attempt) : Prop :=
  forall j a, l !! j = Some a -> j <> i -> msg a = m -> inert a.

(** The forwarding of [m] is waiting for the acknowledgment of its latest
    attempt, which is at index [i]. *)
Definition waiting (m : IInternalMessage.t) (i : nat) (st : State) : Prop :=
  attempts st !! i = Some {| msg := m; onmessage := true; retry := true |}
  /\ others_inert m i (attempts st).

(** The latest attempt for [m], at index [i], was acknowledged and its
    timer cleared. *)
Definition delivered (m : IInternalMessage.t) (i : nat) (st : State) : Prop :=
  attempts st !! i = Some {| msg := m; onmessage := true; retry := false |}
  /\ others_inert m i (attempts st).

(** No timer of an attempt for [m] is pending. *)
Definition quiet (m : IInternalMessage.t) (st : State) : Prop :=
  forall j a, attempts st !! j = Some a -> msg a = m -> retry a = false.

Section WithHost.
Context {host : Host}.

(** The builtin [Error] constructor, [new Error(message)]: an own
    [message] unless the argument is [undefined] (the host's [stack] is left
    out). *)
Definition Error_construct (message : JsVal) : Completion (option string * Props) :=
  Normal (Some "Error",
          match message with
          | JUndefined => []
          | _ => [("message", (false, JStr (ToString message)))]
          end).

(** Lines 49-50: [new (typeof errCtr === 'function' ? errCtr : Error)(dehydratedErr.message)]
    with [errCtr = self[dehydratedErr.name]]. *)
Definition new_error (dehydratedErr : JsVal) : Completion (option string * Props) :=
  let errCtr := self (ToString (get dehydratedErr "name")) in
  match errCtr with
  | GFunction construct => construct (get dehydratedErr "message")
  | GOther => Error_construct (get dehydratedErr "message")
  end.

(** Lines 53-54: [for (const prop in dehydratedErr) hydratedErr[prop] = dehydratedErr[prop]] *)
Definition copy_props (dehydratedErr : JsVal) (own : Props) : Props :=
  fold_left (fun own prop => assign prop (get dehydratedErr prop) own)
            (for_in_keys dehydratedErr) own.

(** Lines 48-54.  Reading a property of [undefined] or [null] throws; the
    guard [if (err)] keeps both away from this code. *)
Definition hydrate (dehydratedErr : JsVal) : Completion JsVal :=
  match dehydratedErr with
  | JUndefined | JNull =>
      Throw (error_instance "TypeError" "Cannot read properties of undefined")
  | _ =>
      match new_error dehydratedErr with
      | Throw e => Throw e
      | Normal (proto, own) => Normal (JObj proto (copy_props dehydratedErr own))
      end
  end.

(** The closure [handleReply] of [handleInboundMessage]. *)
Definition handleReply (st : State) (message : IInternalMessage.t)
  : State * Completion unit :=
  match openTransactions st !! transactionId message with
  | Some transactionP =>
      if truthy (err message) then
        match hydrate (err message) with
        | Throw e => (st, Throw e)
        | Normal hydratedErr =>
            let st := emit st (Reject transactionP hydratedErr) in
            (with_transactions st (delete (transactionId message) (openTransactions st)),
             Normal tt)
        end
      else
        let st := emit st (Resolve transactionP (data message)) in
        (with_transactions st (delete (transactionId message) (openTransactions st)),
         Normal tt)
  | None => (st, Normal tt)
  end.

Definition no_handler_message (messageID : string) : string :=
  "[webext-bridge] No handler registered in '" +:+ context
  +:+ "' to accept messages with id '" +:+ messageID +:+ "'".

(** [message.err = value] *)
Definition set_err (message : IInternalMessage.t) (value : JsVal) : IInternalMessage.t :=
  {| origin := origin message;
     destination := destination message;
     transactionId := transactionId message;
     hops := hops message;
     messageID := messageID message;
     messageType := messageType message;
     err := value;
     data := data message;
     timestamp := timestamp message |}.

(** The object literal of lines 92-99. *)
Definition reply_envelope (message : IInternalMessage.t) (reply : JsVal)
  : IInternalMessage.t :=
  {| origin := Some {| Endpoint.context := Some context; Endpoint.tabId := TabNull |};
     destination := origin message;
     transactionId := transactionId message;
     hops := [];
     messageID := messageID message;
     messageType := "reply";
     err := err message;
     data := reply;
     timestamp := timestamp message |}.

(** The argument of the handler (lines 74-79). *)
Definition handler_argument (message : IInternalMessage.t) : IBridgeMessage.t :=
  {| IBridgeMessage.sender := origin message;
     IBridgeMessage.id := messageID message;
     IBridgeMessage.data := data message;
     IBridgeMessage.timestamp := timestamp message |}.

(** The end of the [finally] block, once the nested [routeMessage] has
    returned or thrown: a throw leaves the block at once; a promise the call
    returned is dropped; then [if (err && !noHandlerFoundError) throw reply]. *)
Definition after_route (message : IInternalMessage.t) (reply err : JsVal)
    (noHandlerFoundError : bool) (routed : Outcome (Completion Returned))
  : Outcome Settlement :=
  match result routed with
  | Throw e =>
      {| state_after := state_after routed;
         message_after := message;
         result := Rejected e |}
  | Normal returned =>
      {| state_after :=
           match returned with
           | Promise (Rejected e) => emit (state_after routed) (UnhandledRejection e)
           | _ => state_after routed
           end;
         message_after := message;
         result :=
           if truthy err && negb noHandlerFoundError
           then Rejected reply
           else Fulfilled |}
  end.

(** The [finally] block of [handleNewMessage], given what [try] and [catch]
    left in [reply], [err] and [noHandlerFoundError]. *)
Definition handleNewMessage_finally
    (route : State -> IInternalMessage.t -> option (Outcome (Completion Returned)))
    (st : State) (message : IInternalMessage.t)
    (reply err : JsVal) (noHandlerFoundError : bool)
  : option (Outcome Settlement) :=
  let message := if truthy err then set_err message (serializeError err) else message in
  option_map (after_route message reply err noHandlerFoundError)
             (route st (reply_envelope message reply)).

(** The closure [handleNewMessage] of [handleInboundMessage].  Without a
    handler nothing is awaited and the whole body runs at once; with one,
    the body resumes after [await] in the state of the call. *)
Definition handleNewMessage
    (route : State -> IInternalMessage.t -> option (Outcome (Completion Returned)))
    (st : State) (message : IInternalMessage.t)
  : option (Outcome Settlement) :=
  match onMessageListeners st !! messageID message with
  | Some cb =>
      let arg := handler_argument message in
      let st := emit st (Invoke (messageID message) arg) in
      match cb arg with
      | Returns reply => handleNewMessage_finally route st message reply JUndefined false
      | Throws error => handleNewMessage_finally route st message JUndefined error false
      end
  | None =>
      handleNewMessage_finally route st message JUndefined
        (error_instance "Error" (no_handler_message (messageID message))) true
  end.

(** [handleInboundMessage]: the promise of the async function. *)
Definition handleInboundMessage
    (route : State -> IInternalMessage.t -> option (Outcome (Completion Returned)))
    (st : State) (message : IInternalMessage.t)
  : option (Outcome Settlement) :=
  if String.eqb (messageType message) "reply" then
    let '(st', c) := handleReply st message in
    Some {| state_after := st';
            message_after := message;
            result := match c with Normal _ => Fulfilled | Throw e => Rejected e end |}
  else if String.eqb (messageType message) "message" then
    handleNewMessage route st message
  else
    Some {| state_after := st; message_after := message; result := Fulfilled |}.

(** [message.hops.push(id)] *)
Definition push_hop (message : IInternalMessage.t) (id : string) : IInternalMessage.t :=
  {| origin := origin message;
     destination := destination message;
     transactionId := transactionId message;
     hops := hops message ++ [id];
     messageID := messageID message;
     messageType := messageType message;
     err := err message;
     data := data message;
     timestamp := timestamp message |}.

(** [if (destination.context)] *)
Definition context_set (destination : Endpoint.t) : bool :=
  match Endpoint.context destination with
  | Some c => negb (String.eqb c EmptyString)
  | None => false
  end.

(** [routeMessage].  The function re-enters itself through
    [handleNewMessage]; [fuel] bounds the nesting, and [None] means the
    bound was reached. *)
Fixpoint routeMessage (fuel : nat) (st : State) (message : IInternalMessage.t)
  : option (Outcome (Completion Returned)) :=
  match fuel with
  | O => None
  | S fuel =>
      if decide (runtimeId ∈ hops message) then
        Some {| state_after := st; message_after := message; result := Normal Undefined |}
      else
        let message := push_hop message runtimeId in
        match destination message with
        | None =>
            match handleInboundMessage (routeMessage fuel) st message with
            | Some o =>
                Some {| state_after := state_after o;
                        message_after := message_after o;
                        result := Normal (Promise (result o)) |}
            | None => None
            end
        | Some dest =>
            if context_set dest then
              let '(st', c) := routeMessageThroughWindow st message in
              Some {| state_after := st';
                      message_after := message;
                      result := match c with
                                | Normal _ => Normal Undefined
                                | Throw e => Throw e
                                end |}
            else
              Some {| state_after := st; message_after := message; result := Normal Undefined |}
        end
  end.

End WithHost.

End Internal.

(* ===================================================================== *)
(** * [internal.ts]: the listener on the window *)
(* ===================================================================== *)

Module Relay.
Import Js.
Import Internal.

(** [a === b] for values that met through [postMessage]: primitives are
    compared by value; an array or an object is a fresh copy on the
    receiving side, and identical to nothing there. *)
Definition strict_equal (a b : JsVal) : bool :=
  match a, b with
  | JUndefined, JUndefined => true
  | JNull, JNull => true
  | JBool x, JBool y => Bool.eqb x y
  | JNum x, JNum y => (x =? y)%Z
  | JStr x, JStr y => String.eqb x y
  | _, _ => false
  end.

(** The [data] of a message event on the window, as far as the listener
    reads it: [cmd], [scope], [context] and [payload] ([None] when the
    object has none).  [assertInternalMessage] checks nothing: a payload is
    taken to be an envelope.  A [data] that is [null] or [undefined], on
    which reading [cmd] throws, is left out. *)
Record RelayData : Type := {
  cmd : JsVal;
  scope : JsVal;
  context : JsVal;
  payload : option IInternalMessage.t
}.

(** [{ data, ports }: MessageEvent]; a port is named by the number of its
    channel on the sending side. *)
Record MessageEvent : Type := {
  data : RelayData;
  ports : list nat
}.

(** What a call of the listener leaves: the state, the port it posted
    [true] on (if it did), and the promise of the async function. *)
Record Handled : Type := {
  state : State;
  acknowledged : option nat;
  settled : Settlement
}.

(** [export function getCurrentContext()] *)
Definition getCurrentContext : string := Internal.context.

(** The event a [window.postMessage] of the forwarder raises on the window
    (the object literals of lines 138-143 and 145-149). *)
Definition posted_event (e : Effect) : option MessageEvent :=
  match e with
  | PostVerify scope ctx port2 =>
      Some {| data := {| cmd := JStr "__crx_bridge_verify_listening";
                         scope := scope;
                         context := JStr ctx;
                         payload := None |};
              ports := [port2] |}
  | PostRoute scope ctx msg =>
      Some {| data := {| cmd := JStr "__crx_bridge_route_message";
                         scope := scope;
                         context := JStr ctx;
                         payload := Some msg |};
              ports := [] |}
  | _ => None
  end.

Section WithHost.
Context {host : Host}.

(** [handleWindowOnMessage].  Reading [ports[0].postMessage] without a port,
    or destructuring a payload that is not there, throws a TypeError, which
    rejects the promise of the function; the promise [routeMessage] may
    return is dropped. *)
Definition handleWindowOnMessage (fuel : nat) (st : State) (ev : MessageEvent)
  : option Handled :=
  let d := data ev in
  if strict_equal (cmd d) (JStr "__crx_bridge_verify_listening")
     && strict_equal (scope d) (namespace st)
     && negb (strict_equal (context d) (JStr Internal.context))
  then
    match ports ev with
    | msgPort :: _ =>
        Some {| state := st; acknowledged := Some msgPort; settled := Fulfilled |}
    | [] =>
        Some {| state := st;
                acknowledged := None;
                settled := Rejected (error_instance "TypeError"
                                       "Cannot read properties of undefined") |}
    end
  else if strict_equal (cmd d) (JStr "__crx_bridge_route_message")
          && strict_equal (scope d) (namespace st)
          && negb (strict_equal (context d) (JStr Internal.context))
  then
    match payload d with
    | None =>
        Some {| state := st;
                acknowledged := None;
                settled := Rejected (error_instance "TypeError"
                                       "Cannot destructure property of undefined") |}
    | Some msg =>
        match routeMessage fuel st msg with
        | None => None
        | Some routed =>
            Some {| state :=
                      match result routed with
                      | Normal (Promise (Rejected e)) =>
                          emit (state_after routed) (UnhandledRejection e)
                      | _ => state_after routed
                      end;
                    acknowledged := None;
                    settled :=
                      match result routed with
                      | Throw e => Rejected e
                      | Normal _ => Fulfilled
                      end |}
        end
    end
  else
    Some {| state := st; acknowledged := None; settled := Fulfilled |}.

End WithHost.

End Relay.

(* ===================================================================== *)
(** * What a step may do *)
(* ===================================================================== *)

Module Observe.
Import Js.
Import Internal.
Import IInternalMessage.

(** From [st] to [st'] the namespace and the listeners are the same, the
    transaction table is the same or has lost [tid], at most one attempt
    was added, and the trace grew by [new]. *)
Definition grows (tid : string) (st st' : State) (new : list Effect) : Prop :=
  namespace st' = namespace st /\
  onMessageListeners st' = onMessageListeners st /\
  (openTransactions st' = openTransactions st \/
   openTransactions st' = delete tid (openTransactions st)) /\
  (attempts st' = attempts st \/ exists a, attempts st' = attempts st ++ [a]) /\
  trace st' = trace st ++ new.

(** An effect [routeMessage] may have on the envelope [m]: a probe in the
    name of this context, the call of the handler of [m] when [m] is a
    message for this context, a settlement; never a broadcast. *)
Definition route_effect (m : IInternalMessage.t) (e : Effect) : Prop :=
  match e with
  | PostVerify _ ctx _ => ctx = Internal.context
  | PostRoute _ _ _ => False
  | Invoke id arg =>
      messageType m = "message" /\ destination m = None /\
      id = messageID m /\ arg = handler_argument m
  | _ => True
  end.

(** A [window.postMessage] made in the name of this context. *)
Definition own_post (e : Effect) : Prop :=
  match e with
  | PostVerify _ ctx _ => ctx = Internal.context
  | PostRoute _ ctx _ => ctx = Internal.context
  | _ => False
  end.

Definition is_RetryTimeout (ev : Event) : bool :=
  match ev with RetryTimeout _ => true | PortMessage _ => false end.

Definition is_PostVerify (e : Effect) : bool :=
  match e with PostVerify _ _ _ => true | _ => false end.

End Observe.

(* ===================================================================== *)
(** * A window host, and the states and envelopes of the examples *)
(* ===================================================================== *)

Module Sample.
Import Js.
Import Internal.
Import IInternalMessage.

(** ToString; an object prints the way [Object.prototype.toString] does. *)
Fixpoint to_string (v : JsVal) : string :=
  match v with
  | JUndefined => "undefined"
  | JNull => "null"
  | JBool true => "true"
  | JBool false => "false"
  | JNum n => NilZero.string_of_int (Z.to_int n)
  | JStr s => s
  | JArr items =>
      (fix join (l : list JsVal) : string :=
         match l with
         | [] => EmptyString
         | x :: rest =>
             let elt := match x with
                        | JUndefined | JNull => EmptyString
                        | _ => to_string x
                        end in
             match rest with
             | [] => elt
             | _ => elt +:+ "," +:+ join rest
             end
         end) items
  | JObj _ _ => "[object Object]"
  end.

(** The native error classes of the language. *)
Definition error_classes : list string :=
  ["Error"; "EvalError"; "RangeError"; "ReferenceError"; "SyntaxError";
   "TypeError"; "URIError"].

Definition error_class (cls : string) : GlobalValue :=
  GFunction (fun message =>
    Normal (Some cls,
            match message with
            | JUndefined => []
            | _ => [("message", (false, JStr (to_string message)))]
            end)).

(** Functions every window binds that are not constructors: [toString],
    [valueOf] and [hasOwnProperty], which [self] inherits from
    [Object.prototype], and [alert], [fetch] and [setTimeout] of the window
    itself.  A built-in method has no construct behaviour: [typeof] says
    ['function'], and [new] on it throws a TypeError. *)
Definition plain_functions : list string :=
  ["toString"; "valueOf"; "hasOwnProperty"; "alert"; "fetch"; "setTimeout"].

Definition not_a_constructor : GlobalValue :=
  GFunction (fun _ => Throw (error_instance "TypeError" "errCtr is not a constructor")).

Definition window_self (key : string) : GlobalValue :=
  if bool_decide (key ∈ error_classes) then error_class key
  else if bool_decide (key ∈ plain_functions) then not_a_constructor
  else GOther.

(** A serializer in the manner of serialize-error: [name] and [message]
    made enumerable, then the enumerable own fields; a value that is not an
    object is returned as it is. *)
Definition serialize (e : JsVal) : JsVal :=
  match e with
  | JObj _ own =>
      JObj None
        (("name", (true, get e "name")) :: ("message", (true, get e "message"))
         :: List.filter (fun kp : string * (bool * JsVal) =>
                      fst (snd kp)
                      && negb (String.eqb (fst kp) "name")
                      && negb (String.eqb (fst kp) "message")) own)
  | _ => e
  end.

Definition window_host : Host :=
  {| runtimeId := "w1"; self := window_self; ToString := to_string; serializeError := serialize |}.

Definition content_script : Endpoint.t :=
  {| Endpoint.context := Some "content-script"; Endpoint.tabId := TabNaN |}.

(** A request from the content script, addressed to this context (the
    previous hop cleared [destination]). *)
Definition ping : IInternalMessage.t :=
  {| origin := Some content_script;
     destination := None;
     transactionId := "t1";
     hops := ["cs"];
     messageID := "ping";
     messageType := "message";
     err := JUndefined;
     data := JObj None [("n", (true, JNum 1))];
     timestamp := 0 |}.

(** The same envelope on its way out through the window. *)
Definition outbound : IInternalMessage.t :=
  {| origin := None;
     destination := Some content_script;
     transactionId := "t1";
     hops := [];
     messageID := "ping";
     messageType := "message";
     err := JUndefined;
     data := JObj None [("n", (true, JNum 1))];
     timestamp := 0 |}.

(** A request this context sends to itself. *)
Definition local_ping : IInternalMessage.t :=
  {| origin := None;
     destination := None;
     transactionId := "t1";
     hops := [];
     messageID := "ping";
     messageType := "message";
     err := JUndefined;
     data := JObj None [("n", (true, JNum 1))];
     timestamp := 0 |}.

Definition boom : JsVal := error_instance "Error" "boom".

Definition throwing_handler : OnMessageCallback := fun _ => Throws boom.

Definition pong_handler : OnMessageCallback :=
  fun _ => Returns (JObj None [("n", (true, JNum 2))]).

Definition state_with (ns : JsVal) (transactions : gmap string nat)
    (listeners : gmap string OnMessageCallback) : State :=
  {| namespace := ns;
     openTransactions := transactions;
     onMessageListeners := listeners;
     attempts := [];
     trace := [] |}.

(** A reply to transaction [t1], with and without an error. *)
Definition reply_with (e : JsVal) : IInternalMessage.t :=
  {| origin := Some content_script;
     destination := None;
     transactionId := "t1";
     hops := ["cs"; "w1"];
     messageID := "ping";
     messageType := "reply";
     err := e;
     data := JObj None [("n", (true, JNum 2))];
     timestamp := 0 |}.


(** An error of class [RangeError] with one field of its own. *)
Definition range_error : JsVal :=
  JObj (Some "RangeError")
    [("message", (false, JStr "too far")); ("code", (true, JNum 7))].

End Sample.

(** Events on the window, as the content script of the same namespace
    raises them. *)
Module SampleRelay.
Import Js.
Import Internal.
Import IInternalMessage.
Import Relay.

(** The probe of the content script, with the port of its channel 4. *)
Definition probe (scope : JsVal) : MessageEvent :=
  {| data := {| cmd := JStr "__crx_bridge_verify_listening";
                scope := scope;
                context := JStr "content-script";
                payload := None |};
     ports := [4] |}.

(** An envelope broadcast by the content script. *)
Definition routed (scope : JsVal) (msg : IInternalMessage.t) : MessageEvent :=
  {| data := {| cmd := JStr "__crx_bridge_route_message";
                scope := scope;
                context := JStr "content-script";
                payload := Some msg |};
     ports := [] |}.

(** The answer to a request of this context, back from the content
    script. *)
Definition answer (e : JsVal) : IInternalMessage.t :=
  {| origin := Some Sample.content_script;
     destination := None;
     transactionId := "t1";
     hops := ["cs"];
     messageID := "ping";
     messageType := "reply";
     err := e;
     IInternalMessage.data := JObj None [("n", (true, JNum 2))];
     timestamp := 0 |}.

(** An envelope for a destination given as a string. *)
Definition addressed (s : string) : IInternalMessage.t :=
  {| origin := None;
     destination := Some (Utils.parseEndpoint s);
     transactionId := "t1";
     hops := [];
     messageID := "ping";
     messageType := "message";
     err := JUndefined;
     IInternalMessage.data := JNull;
     timestamp := 0 |}.

Definition falsy_handler : OnMessageCallback := fun _ => Throws (JNum 0).

End SampleRelay.

(* ===================================================================== *)
(** * Facts about [utils.ts] *)
(* ===================================================================== *)

(** stdpp keeps [String.append] folded; the proofs below compute with it. *)
#[local] Arguments String.append !s1 s2 : simpl nomatch.

Section UtilsFacts.
Import Utils.

Lemma strip_prefix_Some (p s rest : string) :
  strip_prefix p s = Some rest -> s = p +:+ rest.
Proof.
  revert s. induction p as [|a p IH]; intros s Hs; simpl in *.
  - injection Hs as ->. reflexivity.
  - destruct s as [|b s]; [discriminate|].
    destruct (Ascii.eqb_spec a b) as [->|]; [|discriminate].
    simpl. f_equal. now apply IH.
Qed.

Lemma strip_prefix_app (p rest : string) : strip_prefix p (p +:+ rest) = Some rest.
Proof.
  induction p as [|a p IH]; simpl; [reflexivity|].
  now rewrite Ascii.eqb_refl.
Qed.

Lemma match_instance_Some (rest : string) (g2 : option string) :
  match_instance rest = Some g2 ->
  (rest = EmptyString /\ g2 = None) \/
  (exists ds, rest = "@" +:+ ds /\ g2 = Some ds /\ digits ds = true).
Proof.
  destruct rest as [|c ds]; simpl.
  - intros [= <-]. now left.
  - destruct (Ascii.eqb_spec c "@") as [->|]; simpl; [|discriminate].
    destruct (digits ds) eqn:Hd; [|discriminate].
    intros [= <-]. right. now exists ds.
Qed.

Lemma match_alternative_Some (s : string) (alt : string * bool)
    (g1 : string) (g2 : option string) :
  match_alternative s alt = Some (g1, g2) ->
  g1 = fst alt /\
  ((s = g1 /\ g2 = None) \/
   (snd alt = false /\ exists ds, s = g1 +:+ "@" +:+ ds /\ g2 = Some ds /\ digits ds = true)).
Proof.
  unfold match_alternative. destruct alt as [c flag]; simpl.
  destruct (strip_prefix c s) as [rest|] eqn:Hp; [|discriminate].
  apply strip_prefix_Some in Hp. destruct flag.
  - destruct (String.eqb_spec rest EmptyString) as [->|]; [|discriminate].
    intros [= <- <-]. split; [reflexivity|]. left. split; [|reflexivity].
    subst s. clear. induction c; simpl; congruence.
  - destruct (match_instance rest) as [g|] eqn:Hm; [|discriminate].
    intros [= <- <-]. split; [reflexivity|].
    apply match_instance_Some in Hm as [[-> ->]|(ds & -> & -> & Hd)].
    + left. split; [|reflexivity]. subst s. clear. induction c; simpl; congruence.
    + right. split; [reflexivity|]. now exists ds.
Qed.

Lemma first_match_Some (s : string) (alts : list (string * bool))
    (g1 : string) (g2 : option string) :
  first_match s alts = Some (g1, g2) ->
  exists alt, In alt alts /\ match_alternative s alt = Some (g1, g2).
Proof.
  induction alts as [|alt alts IH]; simpl; [discriminate|].
  destruct (match_alternative s alt) as [r|] eqn:Hm.
  - intros [= ->]. exists alt. auto.
  - intros Hf. destruct (IH Hf) as (alt' & Hin & Hm'). exists alt'. auto.
Qed.

(** The matcher accepts grammar strings only ... *)
Lemma ENDPOINT_RE_match_grammar (s : string) (groups : list (option string)) :
  ENDPOINT_RE_match s = Some groups -> endpoint_grammar s.
Proof.
  unfold ENDPOINT_RE_match.
  destruct (first_match s alternatives) as [[g1 g2]|] eqn:Hf; [|discriminate].
  intros _. apply first_match_Some in Hf as (alt & Hin & Hm).
  apply match_alternative_Some in Hm as (-> & [[-> _]|(Hflag & ds & -> & _ & Hd)]).
  - apply grammar_bare. unfold context_names. now apply in_map.
  - apply grammar_instance; [unfold context_names; now apply in_map| |assumption].
    intros Heq. destruct alt as [c flag]; simpl in *. subst c flag.
    repeat (destruct Hin as [Hin|Hin]; [discriminate Hin|]). destruct Hin.
Qed.

(** ... and all of them. *)
Lemma grammar_ENDPOINT_RE_match (s : string) :
  endpoint_grammar s -> ENDPOINT_RE_match s <> None.
Proof.
  intros [c Hc|c ds Hc Hne Hd].
  - repeat (destruct Hc as [<-|Hc]; [discriminate|]). destruct Hc.
  - unfold ENDPOINT_RE_match, context_names in *. simpl in Hc.
    destruct Hc as [<-|Hc]; [congruence|].
    repeat (destruct Hc as [<-|Hc]; [cbn; rewrite Hd; discriminate|]).
    destruct Hc.
Qed.

(** C10. For a bare context name, [parseEndpoint] returns that context with
    [tabId] present and equal to [NaN]; for a string outside the endpoint
    grammar it returns [{context: undefined, tabId: NaN}].  The function is
    total, so nothing is thrown. *)
Theorem parseEndpoint_bare_or_unmatched (endpoint : string) :
  (In endpoint context_names ->
   parseEndpoint endpoint
   = {| Endpoint.context := Some endpoint; Endpoint.tabId := TabNaN |}) /\
  (~ endpoint_grammar endpoint ->
   parseEndpoint endpoint
   = {| Endpoint.context := None; Endpoint.tabId := TabNaN |}).
Proof.
  split.
  - intros Hc. unfold context_names in Hc. simpl in Hc.
    repeat (destruct Hc as [<-|Hc]; [reflexivity|]). destruct Hc.
  - intros Hn. unfold parseEndpoint.
    destruct (ENDPOINT_RE_match endpoint) as [groups|] eqn:Hm; [|reflexivity].
    exfalso. apply Hn. eapply ENDPOINT_RE_match_grammar. eassumption.
Qed.

Lemma parseEndpoint_bare_or_unmatched_witness :
  parseEndpoint "background"
  = {| Endpoint.context := Some "background"; Endpoint.tabId := TabNaN |} /\
  parseEndpoint "background@5"
  = {| Endpoint.context := None; Endpoint.tabId := TabNaN |}.
Proof.
  split.
  - apply (proj1 (parseEndpoint_bare_or_unmatched "background")).
    simpl. auto.
  - apply (proj2 (parseEndpoint_bare_or_unmatched "background@5")).
    intros G. apply grammar_ENDPOINT_RE_match in G. apply G. reflexivity.
Defined.

(** With an instance suffix the number is parsed. *)
Example parseEndpoint_instance :
  parseEndpoint "content-script@42"
  = {| Endpoint.context := Some "content-script"; Endpoint.tabId := TabNum 42 |}.
Proof. reflexivity. Qed.

End UtilsFacts.

(* ===================================================================== *)
(** * Facts about the handshake forwarder *)
(* ===================================================================== *)

Section ForwarderFacts.
Import Js.
Import Internal.
Import IInternalMessage.

Lemma ensureNamespaceSet_spec (st : State) :
  (nonempty_string (namespace st) /\ ensureNamespaceSet st = Normal tt) \/
  (~ nonempty_string (namespace st) /\
   ensureNamespaceSet st = Throw (error_instance "Error" namespace_error_message)).
Proof.
  unfold ensureNamespaceSet, nonempty_string.
  destruct (namespace st) as [| | | |s| |];
    try (right; split; [intros (s' & Hs & _); discriminate Hs|reflexivity]).
  destruct s as [|c s]; simpl.
  - right. split; [|reflexivity]. intros (s' & [= <-] & Hne). now apply Hne.
  - left. split; [|reflexivity]. exists (String c s). split; [reflexivity|discriminate].
Qed.

(** With a namespace the forwarder posts its probe on a new channel. *)
Lemma routeMessageThroughWindow_probe (st : State) (message : IInternalMessage.t) :
  nonempty_string (namespace st) ->
  exists st',
    routeMessageThroughWindow st message = (st', Normal tt) /\
    trace st' = trace st ++ [PostVerify (namespace st) context (length (attempts st))] /\
    attempts st'
    = attempts st ++ [{| msg := message; onmessage := true; retry := true |}].
Proof.
  intros Hns. unfold routeMessageThroughWindow.
  destruct (ensureNamespaceSet_spec st) as [[_ ->]|[Hbad _]]; [|contradiction].
  eexists. split; [reflexivity|]. split; reflexivity.
Qed.

(** C8. While the namespace is not a non-empty string the forwarder throws
    before it creates a channel or posts anything: the state, and with it
    the trace of posted messages, is the one it was called in.  With a
    non-empty string it does not throw, and posts the probe. *)
Theorem routeMessageThroughWindow_namespace_guard
    (st : State) (message : IInternalMessage.t) :
  (~ nonempty_string (namespace st) ->
   routeMessageThroughWindow st message
   = (st, Throw (error_instance "Error" namespace_error_message))) /\
  (nonempty_string (namespace st) ->
   exists st',
     routeMessageThroughWindow st message = (st', Normal tt) /\
     trace st' = trace st ++ [PostVerify (namespace st) context (length (attempts st))] /\
     attempts st'
     = attempts st ++ [{| msg := message; onmessage := true; retry := true |}]).
Proof.
  split; [|apply routeMessageThroughWindow_probe].
  intros Hn. unfold routeMessageThroughWindow.
  destruct (ensureNamespaceSet_spec st) as [[Hok _]|[_ ->]]; [contradiction|reflexivity].
Qed.

Lemma routeMessageThroughWindow_namespace_guard_witness :
  routeMessageThroughWindow (Sample.state_with JUndefined ∅ ∅) Sample.outbound
  = (Sample.state_with JUndefined ∅ ∅,
     Throw (error_instance "Error" namespace_error_message)) /\
  exists st',
    routeMessageThroughWindow (Sample.state_with (JStr "ns") ∅ ∅) Sample.outbound
    = (st', Normal tt) /\
    trace st' = [PostVerify (JStr "ns") context 0] /\
    attempts st' = [{| msg := Sample.outbound; onmessage := true; retry := true |}].
Proof.
  split.
  - apply (proj1 (routeMessageThroughWindow_namespace_guard
                    (Sample.state_with JUndefined ∅ ∅) Sample.outbound)).
    intros (s & Hs & _). discriminate Hs.
  - apply (proj2 (routeMessageThroughWindow_namespace_guard
                    (Sample.state_with (JStr "ns") ∅ ∅) Sample.outbound)).
    exists "ns". split; [reflexivity|discriminate].
Defined.

(** The empty string is no namespace either. *)
Example routeMessageThroughWindow_empty_namespace :
  routeMessageThroughWindow (Sample.state_with (JStr EmptyString) ∅ ∅) Sample.outbound
  = (Sample.state_with (JStr EmptyString) ∅ ∅,
     Throw (error_instance "Error" namespace_error_message)).
Proof. reflexivity. Qed.

(** ** Retries and the single broadcast *)

Lemma deliver_namespace (st : State) (ev : Event) :
  namespace (fst (deliver st ev)) = namespace st.
Proof.
  destruct ev as [ch|ch]; simpl; destruct (attempts st !! ch) as [a|]; try reflexivity.
  - destruct (onmessage a); reflexivity.
  - destruct (retry a); [|reflexivity].
    unfold retry_callback, routeMessageThroughWindow.
    match goal with |- context [ensureNamespaceSet ?s] => destruct (ensureNamespaceSet s) end;
      reflexivity.
Qed.

Lemma run_app (st : State) (evs1 evs2 : list Event) :
  run st (evs1 ++ evs2) = run (run st evs1) evs2.
Proof. revert st. induction evs1 as [|ev evs1 IH]; intros st; simpl; [reflexivity|apply IH]. Qed.

Lemma run_namespace (st : State) (evs : list Event) :
  namespace (run st evs) = namespace st.
Proof.
  revert st. induction evs as [|ev evs IH]; intros st; simpl; [reflexivity|].
  rewrite IH. apply deliver_namespace.
Qed.

(** The timeout of an attempt whose timer is pending: the callback of its
    channel is detached, and a new attempt for the same envelope starts on a
    new channel, with a new probe. *)
Lemma deliver_RetryTimeout (st : State) (ch : nat) (a : Attempt) :
  nonempty_string (namespace st) ->
  attempts st !! ch = Some a -> retry a = true ->
  exists st',
    deliver st (RetryTimeout ch) = (st', Normal tt) /\
    attempts st'
    = <[ch := {| msg := msg a; onmessage := false; retry := false |}]> (attempts st)
      ++ [{| msg := msg a; onmessage := true; retry := true |}] /\
    trace st' = trace st ++ [PostVerify (namespace st) context (length (attempts st))].
Proof.
  intros Hns Hl Hre. simpl. rewrite Hl, Hre. unfold retry_callback.
  match goal with |- context [routeMessageThroughWindow ?s ?m] =>
    destruct (routeMessageThroughWindow_probe s m Hns) as (st' & Hr & Htr & Hat)
  end.
  exists st'. split; [exact Hr|]. split; [exact Hat|].
  rewrite Htr. simpl. now rewrite length_insert.
Qed.

Lemma not_carries_other (m m' : IInternalMessage.t) (scope : JsVal) (ctx : string) :
  m' <> m -> ~ carries m (PostRoute scope ctx m').
Proof. intros Hne (scope' & ctx' & [= _ _ Heq]). now apply Hne. Qed.

Lemma inert_not_live (a : Attempt) :
  inert a -> onmessage a = true \/ retry a = true -> False.
Proof. intros [Hon Hre] [H|H]; congruence. Qed.

Lemma others_inert_insert (m : IInternalMessage.t) (i ch : nat) (l : list Attempt)
    (b : Attempt) :
  others_inert m i l -> (msg b = m -> inert b) -> others_inert m i (<[ch := b]> l).
Proof.
  intros Hoth Hb j a Hl Hj Hm.
  apply list_lookup_insert_Some in Hl as [(-> & <- & _)|[_ Hl]]; [now apply Hb|].
  now apply (Hoth j a).
Qed.

Lemma others_inert_snoc (m : IInternalMessage.t) (i : nat) (l : list Attempt)
    (b : Attempt) :
  others_inert m i l -> (msg b = m -> inert b) -> others_inert m i (l ++ [b]).
Proof.
  intros Hoth Hb j a Hl Hj Hm.
  apply lookup_snoc_Some in Hl as [[_ Hl]|[_ <-]]; [|now apply Hb].
  now apply (Hoth j a).
Qed.

(** An event for another attempt leaves the attempt at [i] as it is, and
    broadcasts nothing for [m]. *)
Lemma deliver_elsewhere (m : IInternalMessage.t) (i : nat) (st : State) (ev : Event)
    (r : Attempt) :
  nonempty_string (namespace st) ->
  attempts st !! i = Some r ->
  others_inert m i (attempts st) ->
  ev <> PortMessage i -> ev <> RetryTimeout i ->
  attempts (fst (deliver st ev)) !! i = Some r /\
  others_inert m i (attempts (fst (deliver st ev))) /\
  exists new,
    trace (fst (deliver st ev)) = trace st ++ new /\
    Forall (fun e => ~ carries m e) new.
Proof.
  intros Hns Hi Hoth Hp Hr.
  assert (Hsame : attempts st !! i = Some r /\ others_inert m i (attempts st) /\
                  exists new, trace st = trace st ++ new /\
                              Forall (fun e => ~ carries m e) new).
  { split; [assumption|]. split; [assumption|]. exists []. now rewrite app_nil_r. }
  destruct ev as [ch|ch].
  - assert (Hch : ch <> i) by congruence.
    simpl. destruct (attempts st !! ch) as [a|] eqn:Hl; [|exact Hsame].
    destruct (onmessage a) eqn:Hon; [|exact Hsame].
    assert (Hfor : msg a <> m).
    { intros Hm. eapply inert_not_live; [exact (Hoth ch a Hl Hch Hm)|now left]. }
    unfold port1_onmessage. simpl. split; [|split].
    + now rewrite list_lookup_insert_ne.
    + apply others_inert_insert; [assumption|]. simpl. intros Hm. contradiction.
    + eexists. split; [reflexivity|]. constructor; [|constructor].
      now apply not_carries_other.
  - assert (Hch : ch <> i) by congruence.
    destruct (attempts st !! ch) as [a|] eqn:Hl; [|simpl; rewrite Hl; exact Hsame].
    destruct (retry a) eqn:Hre; [|simpl; rewrite Hl, Hre; exact Hsame].
    assert (Hfor : msg a <> m).
    { intros Hm. eapply inert_not_live; [exact (Hoth ch a Hl Hch Hm)|now right]. }
    destruct (deliver_RetryTimeout st ch a Hns Hl Hre) as (st' & -> & Hat & Htr).
    simpl. rewrite Hat, Htr. split; [|split].
    + apply lookup_app_l_Some. now rewrite list_lookup_insert_ne.
    + apply others_inert_snoc; [apply others_inert_insert; [assumption|]|];
        simpl; intros Hm; contradiction.
    + eexists. split; [reflexivity|]. constructor; [|constructor].
      intros (scope & ctx & Heq). discriminate Heq.
Qed.

(** One event at a waiting forwarding: the acknowledgment of its latest
    attempt broadcasts the envelope; anything else, the timeout of that
    attempt included, leaves it waiting, nothing broadcast for [m]. *)
Lemma deliver_waiting (m : IInternalMessage.t) (i : nat) (st : State) (ev : Event) :
  nonempty_string (namespace st) ->
  waiting m i st ->
  (ev = PortMessage i /\
   delivered m i (fst (deliver st ev)) /\
   trace (fst (deliver st ev)) = trace st ++ [PostRoute (namespace st) context m]) \/
  (ev <> PortMessage i /\
   exists i' new,
     waiting m i' (fst (deliver st ev)) /\
     trace (fst (deliver st ev)) = trace st ++ new /\
     Forall (fun e => ~ carries m e) new).
Proof.
  intros Hns [Hi Hoth].
  destruct (decide (ev = PortMessage i)) as [->|Hp].
  - left. split; [reflexivity|]. simpl. rewrite Hi. simpl.
    split; [|reflexivity]. split.
    + unfold port1_onmessage. simpl. apply list_lookup_insert_eq.
      eapply lookup_lt_Some, Hi.
    + unfold port1_onmessage. simpl.
      intros j a Hl Hj. rewrite list_lookup_insert_ne in Hl by congruence.
      now apply (Hoth j a).
  - right. split; [assumption|].
    destruct (decide (ev = RetryTimeout i)) as [->|Hr].
    + destruct (deliver_RetryTimeout st i _ Hns Hi eq_refl) as (st' & -> & Hat & Htr).
      simpl in *. exists (length (attempts st)). eexists. split; [split|split].
      * rewrite Hat. apply list_lookup_middle. now rewrite length_insert.
      * rewrite Hat. intros j a Hl Hj Hm.
        apply lookup_snoc_Some in Hl as [[_ Hl]|[Hj' _]];
          [|rewrite length_insert in Hj'; contradiction].
        apply list_lookup_insert_Some in Hl as [(_ & <- & _)|[Hne Hl]];
          [split; reflexivity|].
        apply (Hoth j a Hl); [congruence|assumption].
      * exact Htr.
      * constructor; [|constructor]. intros (scope & ctx & Heq). discriminate Heq.
    + destruct (deliver_elsewhere m i st ev _ Hns Hi Hoth Hp Hr) as (Hi' & Hoth' & new & Htr & Hnew).
      exists i, new. split; [split|split]; assumption.
Qed.

(** After the broadcast, only another message on the acknowledged channel
    broadcasts [m] again. *)
Lemma deliver_delivered (m : IInternalMessage.t) (i : nat) (st : State) (ev : Event) :
  nonempty_string (namespace st) ->
  delivered m i st -> ev <> PortMessage i ->
  delivered m i (fst (deliver st ev)) /\
  exists new,
    trace (fst (deliver st ev)) = trace st ++ new /\
    Forall (fun e => ~ carries m e) new.
Proof.
  intros Hns [Hi Hoth] Hp.
  destruct (decide (ev = RetryTimeout i)) as [->|Hr].
  - simpl. rewrite Hi. simpl. split; [split; assumption|].
    exists []. split; [now rewrite app_nil_r|constructor].
  - destruct (deliver_elsewhere m i st ev _ Hns Hi Hoth Hp Hr) as (Hi' & Hoth' & Hnew).
    split; [split; assumption|exact Hnew].
Qed.

Lemma run_delivered (m : IInternalMessage.t) (i : nat) (evs : list Event) :
  forall st : State,
    nonempty_string (namespace st) ->
    delivered m i st -> ~ In (PortMessage i) evs ->
    exists new,
      trace (run st evs) = trace st ++ new /\
      Forall (fun e => ~ carries m e) new.
Proof.
  induction evs as [|ev evs IH]; intros st Hns Hd Hnin; simpl.
  - exists []. split; [now rewrite app_nil_r|constructor].
  - destruct (deliver_delivered m i st ev Hns Hd) as (Hd' & new1 & Htr1 & Hnew1).
    { intros ->. apply Hnin. now left. }
    destruct (IH (fst (deliver st ev))) as (new2 & Htr2 & Hnew2).
    + now rewrite deliver_namespace.
    + assumption.
    + intros Hin. apply Hnin. now right.
    + exists (new1 ++ new2). split; [now rewrite Htr2, Htr1, app_assoc|].
      now apply Forall_app.
Qed.

(** Once no timer for [m] is pending none ever is again. *)
Lemma deliver_quiet (m : IInternalMessage.t) (st : State) (ev : Event) :
  nonempty_string (namespace st) ->
  quiet m st -> quiet m (fst (deliver st ev)).
Proof.
  intros Hns Hq. destruct ev as [ch|ch].
  - simpl. destruct (attempts st !! ch) as [a|] eqn:Hl; [|assumption].
    destruct (onmessage a); [|assumption].
    unfold port1_onmessage. intros j b Hb Hm. simpl in Hb.
    apply list_lookup_insert_Some in Hb as [(_ & <- & _)|[_ Hb]]; [reflexivity|].
    now apply (Hq j b).
  - destruct (attempts st !! ch) as [a|] eqn:Hl; [|simpl; rewrite Hl; assumption].
    destruct (retry a) eqn:Hre; [|simpl; rewrite Hl, Hre; assumption].
    destruct (deliver_RetryTimeout st ch a Hns Hl Hre) as (st' & -> & Hat & _).
    simpl. intros j b Hb Hm. rewrite Hat in Hb.
    apply lookup_snoc_Some in Hb as [[_ Hb]|[_ <-]].
    + apply list_lookup_insert_Some in Hb as [(_ & <- & _)|[_ Hb]]; [reflexivity|].
      now apply (Hq j b).
    + simpl in Hm. rewrite (Hq ch a Hl Hm) in Hre. discriminate.
Qed.

Lemma run_quiet (m : IInternalMessage.t) (evs : list Event) :
  forall st : State,
    nonempty_string (namespace st) -> quiet m st -> quiet m (run st evs).
Proof.
  induction evs as [|ev evs IH]; intros st Hns Hq; simpl; [assumption|].
  apply IH; [now rewrite deliver_namespace|now apply deliver_quiet].
Qed.

Lemma delivered_quiet (m : IInternalMessage.t) (i : nat) (st : State) :
  delivered m i st -> quiet m st.
Proof.
  intros [Hi Hoth] j a Hl Hm.
  destruct (decide (j = i)) as [->|Hj].
  - rewrite Hi in Hl. now injection Hl as <-.
  - now destruct (Hoth j a Hl Hj Hm).
Qed.

(** A run from a waiting forwarding either still waits, nothing broadcast
    for [m], or has left no timer for [m] pending. *)
Lemma run_waiting (m : IInternalMessage.t) (evs : list Event) :
  forall (i : nat) (st : State),
    nonempty_string (namespace st) ->
    waiting m i st ->
    (exists i' new,
       waiting m i' (run st evs) /\
       trace (run st evs) = trace st ++ new /\
       Forall (fun e => ~ carries m e) new) \/
    quiet m (run st evs).
Proof.
  induction evs as [|ev evs IH]; intros i st Hns Hw; simpl.
  - left. exists i, []. split; [assumption|]. split; [now rewrite app_nil_r|constructor].
  - assert (Hns' : nonempty_string (namespace (fst (deliver st ev))))
      by now rewrite deliver_namespace.
    destruct (deliver_waiting m i st ev Hns Hw)
      as [(_ & Hd & _)|(_ & i' & new1 & Hw' & Htr1 & Hnew1)].
    + right. apply run_quiet; [assumption|]. eapply delivered_quiet, Hd.
    + destruct (IH i' (fst (deliver st ev)) Hns' Hw')
        as [(i'' & new2 & Hw'' & Htr2 & Hnew2)|Hq]; [|now right].
      left. exists i'', (new1 ++ new2). split; [assumption|].
      split; [now rewrite Htr2, Htr1, app_assoc|now apply Forall_app].
Qed.

(** The first attempt. *)
Lemma routeMessageThroughWindow_waiting (st : State) (m : IInternalMessage.t) :
  nonempty_string (namespace st) ->
  (forall a, a ∈ attempts st -> msg a = m -> inert a) ->
  exists st',
    routeMessageThroughWindow st m = (st', Normal tt) /\
    waiting m (length (attempts st)) st' /\
    namespace st' = namespace st /\
    trace st' = trace st ++ [PostVerify (namespace st) context (length (attempts st))].
Proof.
  intros Hns Hin.
  destruct (routeMessageThroughWindow_probe st m Hns) as (st' & Hr & Htr & Hat).
  exists st'. split; [exact Hr|]. split; [split|split].
  - rewrite Hat. now apply list_lookup_middle.
  - rewrite Hat. intros j a Hl Hj Hm.
    apply lookup_snoc_Some in Hl as [[_ Hl]|[Hj' _]]; [|contradiction].
    apply Hin; [|assumption]. apply list_elem_of_lookup. now exists j.
  - pose proof (f_equal fst Hr) as Hf. simpl in Hf. rewrite <- Hf.
    unfold routeMessageThroughWindow. now destruct (ensureNamespaceSet st).
  - exact Htr.
Qed.

(** C9, as the code has it. A timeout detaches the callback of its attempt
    and starts a fresh attempt on a new channel.  Take a forwarding of [m]
    that starts while no other attempt for an equal envelope is live, and a
    run in which one of its attempts is acknowledged while its timer is
    pending and whose channel gets no second message: in that run the
    envelope is broadcast exactly once.  Acknowledgments of attempts that
    timed out change nothing, whenever they arrive, and other forwardings
    may go on meanwhile. *)
Theorem forwarder_broadcasts_once (st0 : State) (m : IInternalMessage.t) :
  nonempty_string (namespace st0) ->
  (forall a, a ∈ attempts st0 -> msg a = m -> inert a) ->
  (forall (st : State) (ch : nat) (a : Attempt),
     nonempty_string (namespace st) ->
     attempts st !! ch = Some a -> retry a = true ->
     exists st',
       deliver st (RetryTimeout ch) = (st', Normal tt) /\
       attempts st'
       = <[ch := {| msg := msg a; onmessage := false; retry := false |}]> (attempts st)
         ++ [{| msg := msg a; onmessage := true; retry := true |}] /\
       trace st' = trace st ++ [PostVerify (namespace st) context (length (attempts st))]) /\
  (forall (evs1 evs2 : list Event) (ch : nat) (a : Attempt),
     attempts (run (fst (routeMessageThroughWindow st0 m)) evs1) !! ch = Some a ->
     msg a = m ->
     retry a = true ->
     ~ In (PortMessage ch) evs2 ->
     exists before after,
       trace (run (fst (routeMessageThroughWindow st0 m))
                  (evs1 ++ PortMessage ch :: evs2))
       = trace st0 ++ before ++ PostRoute (namespace st0) context m :: after /\
       Forall (fun e => ~ carries m e) before /\
       Forall (fun e => ~ carries m e) after).
Proof.
  intros Hns Hin. split; [intros st ch a; apply deliver_RetryTimeout|].
  intros evs1 evs2 ch a Hl Hm Hre Hnin.
  destruct (routeMessageThroughWindow_waiting st0 m Hns Hin) as (st1 & Hr & Hw & Hns1 & Htr1).
  rewrite Hr in *. simpl in Hl |- *.
  assert (Hns1' : nonempty_string (namespace st1)) by now rewrite Hns1.
  destruct (run_waiting m evs1 _ st1 Hns1' Hw) as [(i & new1 & Hw2 & Htr2 & Hnew1)|Hq].
  - assert (ch = i) as ->.
    { destruct (decide (ch = i)) as [|Hne]; [assumption|]. exfalso.
      destruct Hw2 as [_ Hoth]. eapply inert_not_live; [exact (Hoth ch a Hl Hne Hm)|now right]. }
    rewrite run_app.
    change (run (run st1 evs1) (PortMessage i :: evs2))
      with (run (fst (deliver (run st1 evs1) (PortMessage i))) evs2).
    assert (Hns2 : nonempty_string (namespace (run st1 evs1)))
      by now rewrite run_namespace.
    destruct (deliver_waiting m i _ (PortMessage i) Hns2 Hw2)
      as [(_ & Hd & Htr3)|(Hne & _)]; [|congruence].
    destruct (run_delivered m i evs2 (fst (deliver (run st1 evs1) (PortMessage i))))
      as (new2 & Htr4 & Hnew2).
    + now rewrite deliver_namespace.
    + exact Hd.
    + exact Hnin.
    + exists (PostVerify (namespace st0) context (length (attempts st0)) :: new1), new2.
      split; [|split].
      * rewrite Htr4, Htr3, Htr2, Htr1, run_namespace, Hns1.
        rewrite <- !app_assoc. reflexivity.
      * constructor; [|assumption]. intros (scope & ctx & Heq). discriminate Heq.
      * assumption.
  - exfalso. rewrite (Hq ch a Hl Hm) in Hre. discriminate.
Qed.

(** The first attempt times out, its acknowledgment arrives late, the
    second attempt is acknowledged in time: one broadcast. *)
Lemma forwarder_broadcasts_once_witness :
  (exists st',
     deliver (fst (routeMessageThroughWindow (Sample.state_with (JStr "ns") ∅ ∅)
                                             Sample.outbound))
             (RetryTimeout 0)
     = (st', Normal tt) /\
     attempts st'
     = [{| msg := Sample.outbound; onmessage := false; retry := false |};
        {| msg := Sample.outbound; onmessage := true; retry := true |}] /\
     trace st'
     = [PostVerify (JStr "ns") context 0; PostVerify (JStr "ns") context 1]) /\
  (exists before after,
     trace (run (fst (routeMessageThroughWindow (Sample.state_with (JStr "ns") ∅ ∅)
                                                Sample.outbound))
                ([RetryTimeout 0; PortMessage 0]
                 ++ PortMessage 1 :: [PortMessage 0; RetryTimeout 1]))
     = [] ++ before ++ PostRoute (JStr "ns") context Sample.outbound :: after /\
     Forall (fun e => ~ carries Sample.outbound e) before /\
     Forall (fun e => ~ carries Sample.outbound e) after).
Proof.
  assert (Hns : nonempty_string (namespace (Sample.state_with (JStr "ns") ∅ ∅)))
    by (exists "ns"; split; [reflexivity|discriminate]).
  assert (Hin : forall a, a ∈ attempts (Sample.state_with (JStr "ns") ∅ ∅) ->
                          msg a = Sample.outbound -> inert a)
    by (intros a Ha; now apply elem_of_nil in Ha).
  split.
  - exact (proj1 (forwarder_broadcasts_once _ Sample.outbound Hns Hin)
             (fst (routeMessageThroughWindow (Sample.state_with (JStr "ns") ∅ ∅)
                                             Sample.outbound))
             0 {| msg := Sample.outbound; onmessage := true; retry := true |}
             Hns eq_refl eq_refl).
  - refine (proj2 (forwarder_broadcasts_once _ Sample.outbound Hns Hin)
              [RetryTimeout 0; PortMessage 0] [PortMessage 0; RetryTimeout 1] 1
              {| msg := Sample.outbound; onmessage := true; retry := true |}
              eq_refl eq_refl eq_refl _).
    intros [H|[H|[]]]; discriminate H.
Defined.

(** The same run, computed: the late acknowledgment of the first attempt
    and the timer of the acknowledged one leave a single broadcast. *)
Example late_acknowledgment_ignored :
  posted (trace (run (fst (routeMessageThroughWindow (Sample.state_with (JStr "ns") ∅ ∅)
                                                     Sample.outbound))
                     [RetryTimeout 0; PortMessage 0; PortMessage 1;
                      PortMessage 0; RetryTimeout 1]))
  = [PostRoute (JStr "ns") context Sample.outbound].
Proof. reflexivity. Qed.

(** C9, as stated, fails: the first attempt is acknowledged while its timer
    is pending, and a second acknowledgment on the same channel (the
    callback stays on the port after the first) broadcasts the envelope a
    second time. *)
Lemma second_acknowledgment_broadcasts_twice :
  (exists a,
     attempts (run (fst (routeMessageThroughWindow (Sample.state_with (JStr "ns") ∅ ∅)
                                                   Sample.outbound)) [])
     !! 0 = Some a /\ retry a = true) /\
  broadcasts (trace (run (fst (routeMessageThroughWindow
                                 (Sample.state_with (JStr "ns") ∅ ∅) Sample.outbound))
                         [PortMessage 0; PortMessage 0]))
  = 2.
Proof.
  split; [eexists; split; reflexivity|reflexivity].
Qed.

End ForwarderFacts.

(* ===================================================================== *)
(** * Facts about values and the error codec *)
(* ===================================================================== *)

Section CodecFacts.
Import Js.
Import Internal.
Import IInternalMessage.
Context {host : Host}.












(** When the function the record names throws under [new], so does the
    whole reconstruction. *)
Lemma hydrate_Throw (d e : JsVal) :
  new_error d = Throw e -> exists e', hydrate d = Throw e'.
Proof.
  intros Hn. unfold hydrate. rewrite Hn. destruct d; eexists; reflexivity.
Qed.

(** The fallback constructor never throws. *)
Lemma new_error_fallback (d : JsVal) :
  self (ToString (get d "name")) = GOther ->
  exists inst, new_error d = Normal inst.
Proof. intros Hs. unfold new_error. rewrite Hs. eexists. reflexivity. Qed.


End CodecFacts.


(** The reconstructed object is no copy of the original in every respect:
    [name], which the original inherited, is an own enumerable property of
    the result. *)
Example hydrate_own_name :
  Js.own_enumerable Sample.range_error "name" = None /\
  exists hydratedErr,
    Internal.hydrate (host := Sample.window_host) (Sample.serialize Sample.range_error)
    = Js.Normal hydratedErr /\
    Js.own_enumerable hydratedErr "name" = Some (Js.JStr "RangeError").
Proof. split; [reflexivity|]. eexists. split; reflexivity. Qed.


(* ===================================================================== *)
(** * Facts about dispatch *)
(* ===================================================================== *)

Section DispatchFacts.
Import Js.
Import Internal.
Import IInternalMessage.
Context {host : Host}.

#[local] Abbreviation Route :=
  (State -> IInternalMessage.t -> option (Outcome (Completion Returned))).

(** ** Replies *)

(** C7. A reply whose [transactionId] is not in the transaction table is
    dispatched without any effect: the promise of the dispatch is fulfilled
    (nothing is thrown), and the state, with its table and its trace of
    settlements, is unchanged. *)
Theorem reply_for_unknown_transaction_ignored
    (route : Route) (st : State) (message : IInternalMessage.t) :
  messageType message = "reply" ->
  openTransactions st !! transactionId message = None ->
  handleInboundMessage route st message
  = Some {| state_after := st; message_after := message; result := Fulfilled |}.
Proof.
  intros Hty Hnone. unfold handleInboundMessage, handleReply.
  now rewrite Hty, Hnone.
Qed.



(** ** Routing *)

Lemma routeMessage_S (fuel : nat) (st : State) (message : IInternalMessage.t) :
  routeMessage (S fuel) st message
  = if decide (runtimeId ∈ hops message) then
      Some {| state_after := st; message_after := message; result := Normal Undefined |}
    else
      match destination message with
      | None =>
          match handleInboundMessage (routeMessage fuel) st (push_hop message runtimeId) with
          | Some o =>
              Some {| state_after := state_after o;
                      message_after := message_after o;
                      result := Normal (Promise (result o)) |}
          | None => None
          end
      | Some dest =>
          if context_set dest then
            let '(st', c) := routeMessageThroughWindow st (push_hop message runtimeId) in
            Some {| state_after := st';
                    message_after := push_hop message runtimeId;
                    result := match c with
                              | Normal _ => Normal Undefined
                              | Throw e => Throw e
                              end |}
          else
            Some {| state_after := st;
                    message_after := push_hop message runtimeId;
                    result := Normal Undefined |}
      end.
Proof. reflexivity. Qed.

Lemma after_route_message (message : IInternalMessage.t) (reply e : JsVal) (n : bool)
    (routed : Outcome (Completion Returned)) :
  message_after (after_route message reply e n routed) = message.
Proof. unfold after_route. destruct (result routed); reflexivity. Qed.

Lemma handleNewMessage_finally_hops (route : Route) (st : State)
    (message : IInternalMessage.t) (reply e : JsVal) (n : bool) (o : Outcome Settlement) :
  handleNewMessage_finally route st message reply e n = Some o ->
  hops (message_after o) = hops message.
Proof.
  unfold handleNewMessage_finally.
  match goal with |- context [route ?s ?m] => destruct (route s m) as [routed|] end;
    [|discriminate].
  simpl. intros [= <-]. rewrite after_route_message. now destruct (truthy e).
Qed.

(** Dispatch leaves the hop list of the envelope alone. *)
Lemma handleInboundMessage_hops (route : Route) (st : State)
    (message : IInternalMessage.t) (o : Outcome Settlement) :
  handleInboundMessage route st message = Some o ->
  hops (message_after o) = hops message.
Proof.
  unfold handleInboundMessage.
  destruct (String.eqb (messageType message) "reply").
  - destruct (handleReply st message). now intros [= <-].
  - destruct (String.eqb (messageType message) "message"); [|now intros [= <-]].
    unfold handleNewMessage.
    destruct (onMessageListeners st !! messageID message) as [cb|].
    + destruct (cb (handler_argument message)); apply handleNewMessage_finally_hops.
    + apply handleNewMessage_finally_hops.
Qed.

(** C3. An envelope whose hop list holds the local identity is returned
    from at once: the state (both tables, the channels, the trace of
    handler calls and posted messages) and the envelope, its hop list
    included, are unchanged.  And routing never takes the number of
    occurrences of the local identity in the hop list above one. *)
Theorem routeMessage_visited_is_noop
    (fuel : nat) (st : State) (message : IInternalMessage.t) :
  (runtimeId ∈ hops message ->
   routeMessage (S fuel) st message
   = Some {| state_after := st; message_after := message; result := Normal Undefined |}) /\
  (forall o,
     routeMessage fuel st message = Some o ->
     count_occ string_dec (hops message) runtimeId <= 1 ->
     count_occ string_dec (hops (message_after o)) runtimeId <= 1).
Proof.
  split.
  - intros Hin. rewrite routeMessage_S. now destruct (decide (runtimeId ∈ hops message)).
  - intros o Hr Hc. destruct fuel as [|fuel]; [discriminate|].
    rewrite routeMessage_S in Hr.
    destruct (decide (runtimeId ∈ hops message)) as [Hin|Hnin].
    + now injection Hr as <-.
    + assert (Hpush : count_occ string_dec (hops (push_hop message runtimeId))
                        runtimeId <= 1).
      { simpl. rewrite count_occ_app. simpl.
        rewrite (proj1 (count_occ_not_In string_dec _ _))
          by (intros Hin; apply Hnin; now apply list_elem_of_In).
        destruct (string_dec runtimeId runtimeId); [lia|contradiction]. }
      destruct (destination message) as [dest|].
      * destruct (context_set dest).
        -- destruct (routeMessageThroughWindow st (push_hop message runtimeId)).
           now injection Hr as <-.
        -- now injection Hr as <-.
      * destruct (handleInboundMessage (routeMessage fuel) st (push_hop message runtimeId))
          as [o'|] eqn:Hi; [|discriminate].
        injection Hr as <-. simpl.
        now rewrite (handleInboundMessage_hops _ _ _ _ Hi).
Qed.

(** ** Enough fuel *)

Lemma handleInboundMessage_ext (r1 r2 : Route) (st : State) (message : IInternalMessage.t) :
  (forall st' m', messageType m' = "reply" -> r1 st' m' = r2 st' m') ->
  handleInboundMessage r1 st message = handleInboundMessage r2 st message.
Proof.
  intros Hext. unfold handleInboundMessage.
  destruct (String.eqb (messageType message) "reply"); [reflexivity|].
  destruct (String.eqb (messageType message) "message"); [|reflexivity].
  unfold handleNewMessage, handleNewMessage_finally.
  destruct (onMessageListeners st !! messageID message) as [cb|].
  - destruct (cb (handler_argument message)); now rewrite Hext.
  - now rewrite Hext.
Qed.

Lemma handleInboundMessage_reply (route : Route) (st : State)
    (message : IInternalMessage.t) :
  messageType message = "reply" ->
  handleInboundMessage route st message
  = Some {| state_after := fst (handleReply st message);
            message_after := message;
            result := match snd (handleReply st message) with
                      | Normal _ => Fulfilled
                      | Throw e => Rejected e
                      end |}.
Proof.
  intros Hty. unfold handleInboundMessage. rewrite Hty. simpl.
  now destruct (handleReply st message).
Qed.

(** Routing a reply never re-enters [routeMessage]. *)
Lemma routeMessage_reply_fuel (fuel : nat) (st : State) (message : IInternalMessage.t) :
  messageType message = "reply" ->
  routeMessage (S fuel) st message = routeMessage 1 st message /\
  exists o, routeMessage (S fuel) st message = Some o.
Proof.
  intros Hty. rewrite !routeMessage_S.
  destruct (decide (runtimeId ∈ hops message)); [split; [reflexivity|now eexists]|].
  destruct (destination message) as [dest|].
  - split; [reflexivity|]. destruct (context_set dest); [|now eexists].
    destruct (routeMessageThroughWindow st (push_hop message runtimeId)). now eexists.
  - rewrite !handleInboundMessage_reply by exact Hty. split; [reflexivity|now eexists].
Qed.

(** Two levels are enough: the result does not depend on the fuel beyond
    them, and it exists. *)
Lemma routeMessage_fuel (fuel : nat) (st : State) (message : IInternalMessage.t) :
  routeMessage (S (S fuel)) st message = routeMessage 2 st message /\
  exists o, routeMessage (S (S fuel)) st message = Some o.
Proof.
  rewrite !(routeMessage_S (S _)).
  destruct (decide (runtimeId ∈ hops message)); [split; [reflexivity|now eexists]|].
  destruct (destination message) as [dest|].
  - split; [reflexivity|]. destruct (context_set dest); [|now eexists].
    destruct (routeMessageThroughWindow st (push_hop message runtimeId)). now eexists.
  - rewrite (handleInboundMessage_ext (routeMessage (S fuel)) (routeMessage 1))
      by (intros st' m' Hm'; now apply routeMessage_reply_fuel).
    split; [reflexivity|].
    set (m := push_hop message runtimeId).
    assert (Hi : exists o, handleInboundMessage (routeMessage 1) st m = Some o).
    { unfold handleInboundMessage.
      destruct (String.eqb (messageType m) "reply");
        [destruct (handleReply st m); now eexists|].
      destruct (String.eqb (messageType m) "message"); [|now eexists].
      unfold handleNewMessage, handleNewMessage_finally.
      destruct (onMessageListeners st !! messageID m) as [cb|];
        [destruct (cb (handler_argument m))|];
        match goal with |- context [routeMessage 1 ?s ?r] =>
          destruct (proj2 (routeMessage_reply_fuel 0 s r eq_refl)) as [o ->]
        end; now eexists. }
    destruct Hi as [o ->]. now eexists.
Qed.

(** ** New messages *)

(** The only exception [routeMessage] throws is the forwarder's, for a
    namespace that is not set. *)
Lemma routeMessage_Throw (fuel : nat) (st : State) (message : IInternalMessage.t)
    (o : Outcome (Completion Returned)) (e : JsVal) :
  routeMessage fuel st message = Some o ->
  result o = Throw e ->
  ~ nonempty_string (namespace st) /\
  e = error_instance "Error" namespace_error_message.
Proof.
  destruct fuel as [|fuel]; [discriminate|]. rewrite routeMessage_S.
  destruct (decide (runtimeId ∈ hops message)); [intros [= <-]; discriminate|].
  destruct (destination message) as [dest|].
  - destruct (context_set dest); [|intros [= <-]; discriminate].
    unfold routeMessageThroughWindow.
    destruct (ensureNamespaceSet_spec st) as [[_ ->]|[Hbad ->]].
    + intros [= <-]. discriminate.
    + intros [= <-]. simpl. intros [= <-]. now split.
  - destruct (handleInboundMessage _ st _); [|discriminate]. intros [= <-]. discriminate.
Qed.

(** C6. When the handler of a message returns, the envelope handed to
    [routeMessage] is a reply that carries the returned value as [data],
    comes from this context, goes to the origin of the request, has an
    empty hop list and keeps the [transactionId] (and the other fields) of
    the request; the dispatch then ends as the routing of that reply lets
    it.  The same envelope is handed over in whatever state the function
    resumes after the handler was awaited. *)
Theorem returned_value_is_routed_as_reply
    (st : State) (message : IInternalMessage.t) (cb : OnMessageCallback) (reply : JsVal) :
  messageType message = "message" ->
  onMessageListeners st !! messageID message = Some cb ->
  cb (handler_argument message) = Returns reply ->
  exists sent,
    data sent = reply /\
    messageType sent = "reply" /\
    origin sent = Some {| Endpoint.context := Some context; Endpoint.tabId := TabNull |} /\
    destination sent = origin message /\
    hops sent = [] /\
    transactionId sent = transactionId message /\
    messageID sent = messageID message /\
    err sent = err message /\
    timestamp sent = timestamp message /\
    (forall route : Route,
       handleInboundMessage route st message
       = option_map (after_route message reply JUndefined false)
           (route (emit st (Invoke (messageID message) (handler_argument message))) sent)) /\
    (forall (route : Route) (resumed : State),
       handleNewMessage_finally route resumed message reply JUndefined false
       = option_map (after_route message reply JUndefined false) (route resumed sent)).
Proof.
  intros Hty Hcb Hret. exists (reply_envelope message reply).
  repeat (split; [reflexivity|]).
  split; [|reflexivity].
  intros route. unfold handleInboundMessage, handleNewMessage.
  unfold OnMessageCallback in *. rewrite Hty, Hcb, Hret. reflexivity.
Qed.

(** C5. When no handler is registered for the [messageID] of a message, the
    envelope handed to [routeMessage] is a reply whose [err] is the
    serialized error "No handler registered in 'window' to accept messages
    with id ..."; no handler is called; and the error is not thrown again:
    the promise of the dispatch is fulfilled, unless routing the reply
    itself throws, which it does only for a namespace that is not set. *)
Theorem missing_handler_is_reported_not_rethrown
    (st : State) (message : IInternalMessage.t) :
  messageType message = "message" ->
  onMessageListeners st !! messageID message = None ->
  exists sent error,
    error = error_instance "Error"
              ("[webext-bridge] No handler registered in '" +:+ context
               +:+ "' to accept messages with id '" +:+ messageID message +:+ "'") /\
    err sent = serializeError error /\
    data sent = JUndefined /\
    messageType sent = "reply" /\
    origin sent = Some {| Endpoint.context := Some context; Endpoint.tabId := TabNull |} /\
    destination sent = origin message /\
    hops sent = [] /\
    transactionId sent = transactionId message /\
    (forall route : Route,
       handleInboundMessage route st message
       = option_map (after_route (set_err message (serializeError error)) JUndefined error true)
           (route st sent)) /\
    (forall fuel o,
       handleInboundMessage (routeMessage fuel) st message = Some o ->
       result o <> Rejected error /\
       (result o = Fulfilled \/
        (~ nonempty_string (namespace st) /\
         result o = Rejected (error_instance "Error" namespace_error_message)))).
Proof.
  intros Hty Hnone.
  exists (reply_envelope
            (set_err message
               (serializeError (error_instance "Error" (no_handler_message (messageID message)))))
            JUndefined).
  exists (error_instance "Error" (no_handler_message (messageID message))).
  repeat (split; [reflexivity|]).
  assert (Hunfold : forall route : Route,
             handleInboundMessage route st message
             = option_map
                 (after_route
                    (set_err message
                       (serializeError
                          (error_instance "Error" (no_handler_message (messageID message)))))
                    JUndefined
                    (error_instance "Error" (no_handler_message (messageID message))) true)
                 (route st
                    (reply_envelope
                       (set_err message
                          (serializeError
                             (error_instance "Error"
                                (no_handler_message (messageID message)))))
                       JUndefined))).
  { intros route. unfold handleInboundMessage, handleNewMessage.
    unfold OnMessageCallback in *. rewrite Hty, Hnone. reflexivity. }
  split; [exact Hunfold|].
  intros fuel o. rewrite Hunfold.
  match goal with |- context [routeMessage fuel ?s ?m] =>
    destruct (routeMessage fuel s m) as [routed|] eqn:Hr
  end; [|discriminate].
  simpl. intros [= <-]. unfold after_route.
  destruct (result routed) as [returned|e] eqn:Hres; simpl.
  - split; [discriminate|now left].
  - destruct (routeMessage_Throw _ _ _ _ _ Hr Hres) as [Hbad ->].
    split; [intros [= Heq]; discriminate Heq|]. right. now split.
Qed.

(** What the code does when the handler throws a truthy value: the reply
    carries the serialized error, and, once the reply is routed, the
    dispatch rejects with the value of the variable [reply], which is
    [undefined], whatever was thrown. *)
Lemma thrown_error_is_routed_then_undefined_thrown
    (st : State) (message : IInternalMessage.t) (cb : OnMessageCallback) (error : JsVal) :
  messageType message = "message" ->
  onMessageListeners st !! messageID message = Some cb ->
  cb (handler_argument message) = Throws error ->
  truthy error = true ->
  (forall route : Route,
     handleInboundMessage route st message
     = option_map (after_route (set_err message (serializeError error)) JUndefined error false)
         (route (emit st (Invoke (messageID message) (handler_argument message)))
                (reply_envelope (set_err message (serializeError error)) JUndefined))) /\
  (forall routed returned,
     result routed = Normal returned ->
     result (after_route (set_err message (serializeError error)) JUndefined error false
               routed)
     = Rejected JUndefined).
Proof.
  intros Hty Hcb Hthrow Ht. split.
  - intros route. unfold handleInboundMessage, handleNewMessage, handleNewMessage_finally.
    unfold OnMessageCallback in *. rewrite Hty, Hcb, Hthrow, Ht. reflexivity.
  - intros routed returned Hres. unfold after_route. now rewrite Hres, Ht.
Qed.

(** ** A request answered in the context that sent it *)

(** A request that this context sent to itself is handled here, and its
    reply comes straight back to the transaction table: the pending promise
    is resolved with exactly the value the handler returned, and the entry
    is removed. *)
Theorem local_request_resolves
    (fuel : nat) (st : State) (message : IInternalMessage.t)
    (cb : OnMessageCallback) (reply : JsVal) (transactionP : nat) :
  messageType message = "message" ->
  destination message = None ->
  origin message = None ->
  truthy (err message) = false ->
  runtimeId ∉ hops message ->
  onMessageListeners st !! messageID message = Some cb ->
  cb (handler_argument (push_hop message runtimeId)) = Returns reply ->
  openTransactions st !! transactionId message = Some transactionP ->
  exists o,
    routeMessage (S (S fuel)) st message = Some o /\
    result o = Normal (Promise Fulfilled) /\
    trace (state_after o)
    = trace st ++ [Invoke (messageID message) (handler_argument (push_hop message runtimeId));
                   Resolve transactionP reply] /\
    openTransactions (state_after o) = delete (transactionId message) (openTransactions st).
Proof.
  intros Hty Hdest Horig Herr Hnin Hcb Hret Hp.
  rewrite routeMessage_S.
  destruct (decide (runtimeId ∈ hops message)); [contradiction|].
  rewrite Hdest.
  unfold handleInboundMessage, handleNewMessage, handleNewMessage_finally.
  unfold OnMessageCallback in *.
  cbn -[routeMessage]. rewrite Hty, Hcb, Hret. cbn -[routeMessage].
  rewrite routeMessage_S. cbn -[routeMessage].
  destruct (decide (runtimeId ∈ [])) as [Hin|_]; [now apply elem_of_nil in Hin|].
  rewrite Horig. unfold handleInboundMessage, handleReply. cbn -[routeMessage].
  rewrite Hp, Herr. cbn.
  eexists. split; [reflexivity|]. cbn. split; [reflexivity|].
  split; [|reflexivity]. now rewrite <- app_assoc.
Qed.

End DispatchFacts.

Lemma reply_for_unknown_transaction_ignored_witness :
  Internal.handleInboundMessage (host := Sample.window_host)
    (Internal.routeMessage (host := Sample.window_host) 1)
    (Sample.state_with (Js.JStr "ns") {["t0" := 3]} ∅)
    (Sample.reply_with (Sample.serialize Sample.boom))
  = Some {| Internal.state_after := Sample.state_with (Js.JStr "ns") {["t0" := 3]} ∅;
            Internal.message_after := Sample.reply_with (Sample.serialize Sample.boom);
            Internal.result := Internal.Fulfilled |}.
Proof.
  apply (reply_for_unknown_transaction_ignored (host := Sample.window_host)).
  - reflexivity.
  - vm_compute. reflexivity.
Defined.


Lemma routeMessage_visited_is_noop_witness :
  Internal.routeMessage (host := Sample.window_host) 1
    (Sample.state_with (Js.JStr "ns") {["t1" := 7]} ∅)
    (Sample.reply_with Js.JUndefined)
  = Some {| Internal.state_after := Sample.state_with (Js.JStr "ns") {["t1" := 7]} ∅;
            Internal.message_after := Sample.reply_with Js.JUndefined;
            Internal.result := Js.Normal Internal.Undefined |} /\
  (forall o,
     Internal.routeMessage (host := Sample.window_host) 2
       (Sample.state_with (Js.JStr "ns") ∅ ∅) Sample.ping = Some o ->
     count_occ string_dec (IInternalMessage.hops (Internal.message_after o)) "w1" <= 1).
Proof.
  split.
  - apply (proj1 (routeMessage_visited_is_noop (host := Sample.window_host) 0
                    (Sample.state_with (Js.JStr "ns") {["t1" := 7]} ∅)
                    (Sample.reply_with Js.JUndefined))).
    apply list_elem_of_In. simpl. auto.
  - intros o Ho.
    apply (proj2 (routeMessage_visited_is_noop (host := Sample.window_host) 2
                    (Sample.state_with (Js.JStr "ns") ∅ ∅) Sample.ping) o Ho).
    vm_compute. lia.
Defined.


Lemma returned_value_is_routed_as_reply_witness :
  exists sent,
    IInternalMessage.data sent = Js.JObj None [("n", (true, Js.JNum 2))] /\
    IInternalMessage.messageType sent = "reply" /\
    IInternalMessage.origin sent
    = Some {| Endpoint.context := Some Internal.context; Endpoint.tabId := TabNull |} /\
    IInternalMessage.destination sent = Some Sample.content_script /\
    IInternalMessage.hops sent = [] /\
    IInternalMessage.transactionId sent = "t1" /\
    IInternalMessage.messageID sent = "ping" /\
    IInternalMessage.err sent = Js.JUndefined /\
    IInternalMessage.timestamp sent = 0%Z /\
    (forall route,
       Internal.handleInboundMessage (host := Sample.window_host) route
         (Sample.state_with (Js.JStr "ns") ∅ {["ping" := Sample.pong_handler]}) Sample.ping
       = option_map
           (Internal.after_route Sample.ping (Js.JObj None [("n", (true, Js.JNum 2))])
              Js.JUndefined false)
           (route (Internal.emit
                     (Sample.state_with (Js.JStr "ns") ∅ {["ping" := Sample.pong_handler]})
                     (Internal.Invoke "ping" (Internal.handler_argument Sample.ping)))
                  sent)) /\
    (forall route resumed,
       Internal.handleNewMessage_finally (host := Sample.window_host) route resumed
         Sample.ping (Js.JObj None [("n", (true, Js.JNum 2))]) Js.JUndefined false
       = option_map
           (Internal.after_route Sample.ping (Js.JObj None [("n", (true, Js.JNum 2))])
              Js.JUndefined false)
           (route resumed sent)).
Proof.
  refine (returned_value_is_routed_as_reply (host := Sample.window_host)
            (Sample.state_with (Js.JStr "ns") ∅ {["ping" := Sample.pong_handler]})
            Sample.ping Sample.pong_handler (Js.JObj None [("n", (true, Js.JNum 2))])
            eq_refl _ eq_refl).
  vm_compute. reflexivity.
Defined.

Lemma missing_handler_is_reported_not_rethrown_witness :
  exists sent error,
    error = Js.error_instance "Error"
              "[webext-bridge] No handler registered in 'window' to accept messages with id 'ping'" /\
    IInternalMessage.err sent = Sample.serialize error /\
    IInternalMessage.data sent = Js.JUndefined /\
    IInternalMessage.messageType sent = "reply" /\
    IInternalMessage.origin sent
    = Some {| Endpoint.context := Some Internal.context; Endpoint.tabId := TabNull |} /\
    IInternalMessage.destination sent = Some Sample.content_script /\
    IInternalMessage.hops sent = [] /\
    IInternalMessage.transactionId sent = "t1" /\
    (forall route,
       Internal.handleInboundMessage (host := Sample.window_host) route
         (Sample.state_with (Js.JStr "ns") ∅ ∅) Sample.ping
       = option_map
           (Internal.after_route
              (Internal.set_err Sample.ping (Sample.serialize error)) Js.JUndefined error true)
           (route (Sample.state_with (Js.JStr "ns") ∅ ∅) sent)) /\
    (forall fuel o,
       Internal.handleInboundMessage (host := Sample.window_host)
         (Internal.routeMessage (host := Sample.window_host) fuel)
         (Sample.state_with (Js.JStr "ns") ∅ ∅) Sample.ping = Some o ->
       Internal.result o <> Internal.Rejected error /\
       (Internal.result o = Internal.Fulfilled \/
        (~ Internal.nonempty_string
             (Internal.namespace (Sample.state_with (Js.JStr "ns") ∅ ∅)) /\
         Internal.result o
         = Internal.Rejected (Js.error_instance "Error" Internal.namespace_error_message)))).
Proof.
  refine (missing_handler_is_reported_not_rethrown (host := Sample.window_host)
            (Sample.state_with (Js.JStr "ns") ∅ ∅) Sample.ping eq_refl _).
  vm_compute. reflexivity.
Defined.

(* ===================================================================== *)
(** * Runs of the window host *)
(* ===================================================================== *)

Section Runs.
Import Js.
Import Internal.
Import IInternalMessage.

(** C1, the code at a failing input. The handler of [ping] throws
    [Error("boom")].  The reply that is routed carries the serialized error,
    whose name and message are those of the thrown error; but what the
    dispatch throws locally is the value of the variable [reply], that is
    [undefined], and not the error of the handler. *)
Theorem throwing_handler_rethrows_undefined :
  exists o,
    routeMessage (host := Sample.window_host) 2
      (Sample.state_with (JStr "ns") ∅ {["ping" := Sample.throwing_handler]}) Sample.ping
    = Some o /\
    result o = Normal (Promise (Rejected JUndefined)) /\
    Rejected JUndefined <> Rejected Sample.boom /\
    trace (state_after o)
    = [Invoke "ping" (handler_argument (push_hop Sample.ping "w1"));
       PostVerify (JStr "ns") context 0] /\
    (exists sent,
       attempts (state_after o) = [{| msg := sent; onmessage := true; retry := true |}] /\
       messageType sent = "reply" /\
       destination sent = Some Sample.content_script /\
       data sent = JUndefined /\
       get (err sent) "name" = get Sample.boom "name" /\
       get (err sent) "message" = get Sample.boom "message").
Proof.
  eexists. split; [vm_compute; reflexivity|].
  split; [reflexivity|]. split; [discriminate|]. split; [reflexivity|].
  eexists. repeat split.
Qed.

(** The scenario of the specification: [ping] with [{n: 1}], a handler that
    returns [{n: 2}].  The probe is posted; once it is acknowledged the
    reply is broadcast with [{n: 2}] as its data, the local identity as its
    only hop, and nothing is thrown. *)
Example ping_pong :
  exists o,
    routeMessage (host := Sample.window_host) 2
      (Sample.state_with (JStr "ns") ∅ {["ping" := Sample.pong_handler]}) Sample.ping
    = Some o /\
    result o = Normal (Promise Fulfilled) /\
    posted (trace (run (state_after o) [PortMessage 0]))
    = [PostRoute (JStr "ns") context
         {| origin := Some {| Endpoint.context := Some "window"; Endpoint.tabId := TabNull |};
            destination := Some Sample.content_script;
            transactionId := "t1";
            hops := ["w1"];
            messageID := "ping";
            messageType := "reply";
            err := JUndefined;
            data := JObj None [("n", (true, JNum 2))];
            timestamp := 0 |}].
Proof.
  eexists. split; [vm_compute; reflexivity|]. split; reflexivity.
Qed.

(** A request sent and handled in this very context. *)
Lemma local_request_resolves_witness :
  exists o,
    routeMessage (host := Sample.window_host) 2
      (Sample.state_with (JStr "ns") {["t1" := 7]} {["ping" := Sample.pong_handler]})
      Sample.local_ping
    = Some o /\
    result o = Normal (Promise Fulfilled) /\
    trace (state_after o)
    = [Invoke "ping" (handler_argument (push_hop Sample.local_ping "w1"));
       Resolve 7 (JObj None [("n", (true, JNum 2))])] /\
    openTransactions (state_after o) = delete "t1" {["t1" := 7]}.
Proof.
  refine (local_request_resolves (host := Sample.window_host) 0
            (Sample.state_with (JStr "ns") {["t1" := 7]} {["ping" := Sample.pong_handler]})
            Sample.local_ping Sample.pong_handler (JObj None [("n", (true, JNum 2))]) 7
            eq_refl eq_refl eq_refl eq_refl _ _ eq_refl _).
  - apply not_elem_of_nil.
  - vm_compute. reflexivity.
  - vm_compute. reflexivity.
Defined.

(** Without a namespace the reply of a missing handler cannot leave: the
    forwarder's error is what the dispatch throws. *)
Example missing_handler_without_namespace :
  exists o,
    routeMessage (host := Sample.window_host) 2
      (Sample.state_with JUndefined ∅ ∅) Sample.ping
    = Some o /\
    result o
    = Normal (Promise (Rejected (error_instance "Error" namespace_error_message))) /\
    trace (state_after o) = [].
Proof.
  eexists. split; [vm_compute; reflexivity|]. split; reflexivity.
Qed.

End Runs.

(* ===================================================================== *)
(** * More about [utils.ts] *)
(* ===================================================================== *)

Section EndpointFacts.
Import Utils.





(** A context name other than [background], [@] and one or more digits:
    the context and the number the digits spell. *)
Lemma parseEndpoint_instance_digits (c ds : string) :
  In c context_names -> c <> "background" -> digits ds = true ->
  parseEndpoint (c +:+ "@" +:+ ds)
  = {| Endpoint.context := Some c; Endpoint.tabId := TabNum (decimal_value 0 ds) |}.
Proof.
  intros Hc Hne Hd. unfold context_names in Hc. simpl in Hc.
  destruct Hc as [<-|Hc]; [congruence|].
  unfold parseEndpoint, ENDPOINT_RE_match.
  repeat (destruct Hc as [<-|Hc]; [cbn; rewrite Hd; reflexivity|]).
  destruct Hc.
Qed.



(** X20. [background] takes no instance: followed by anything at all it
    is not an endpoint, and parses to [{context: undefined, tabId: NaN}]. *)
Theorem parseEndpoint_background_alone (rest : string) :
  rest <> EmptyString ->
  parseEndpoint ("background" +:+ rest)
  = {| Endpoint.context := None; Endpoint.tabId := TabNaN |}.
Proof.
  intros Hne. unfold parseEndpoint, ENDPOINT_RE_match. cbn.
  destruct (String.eqb_spec rest EmptyString); [contradiction|reflexivity].
Qed.

Lemma parseEndpoint_background_alone_witness :
  parseEndpoint ("background" +:+ "@7")
  = {| Endpoint.context := None; Endpoint.tabId := TabNaN |}.
Proof. apply (parseEndpoint_background_alone "@7"). discriminate. Defined.

Lemma parseEndpoint_context (s c : string) :
  Endpoint.context (parseEndpoint s) = Some c ->
  In c context_names /\
  (s = c \/ (c <> "background" /\ exists ds, digits ds = true /\ s = c +:+ "@" +:+ ds)).
Proof.
  unfold parseEndpoint, ENDPOINT_RE_match.
  destruct (first_match s alternatives) as [[g1 g2]|] eqn:Hf; [|discriminate].
  simpl. intros [= ->].
  apply first_match_Some in Hf as (alt & Hin & Hm).
  apply match_alternative_Some in Hm as (-> & [[-> _]|(Hflag & ds & -> & _ & Hd)]).
  - split; [exact (in_map fst _ _ Hin)|now left].
  - split; [exact (in_map fst _ _ Hin)|]. right. split; [|now exists ds].
    intros Heq. destruct alt as [c flag]; simpl in *. subst c flag.
    repeat (destruct Hin as [Hin|Hin]; [discriminate Hin|]). destruct Hin.
Qed.

(** X21. The endpoints [isInternalEndpoint] accepts after parsing are
    exactly [background], and [devtools] and [content-script] with or
    without an instance; [popup], [options], [window] and every string that
    is no endpoint are not internal. *)
Theorem isInternalEndpoint_parseEndpoint (s : string) :
  isInternalEndpoint (parseEndpoint s) = true <->
  s = "background" \/
  exists c, (c = "devtools" \/ c = "content-script") /\
            (s = c \/ exists ds, digits ds = true /\ s = c +:+ "@" +:+ ds).
Proof.
  split.
  - unfold isInternalEndpoint.
    destruct (Endpoint.context (parseEndpoint s)) as [c|] eqn:Hc; [|discriminate].
    intros Hint. apply parseEndpoint_context in Hc as [_ Hs].
    simpl in Hint.
    destruct (String.eqb_spec c "content-script") as [->|_].
    { right. exists "content-script". split; [now right|].
      destruct Hs as [->|(_ & ds & Hd & ->)]; [now left|right; now exists ds]. }
    destruct (String.eqb_spec c "background") as [->|_].
    { left. destruct Hs as [->|(Hne & _)]; [reflexivity|congruence]. }
    destruct (String.eqb_spec c "devtools") as [->|_]; [|discriminate].
    right. exists "devtools". split; [now left|].
    destruct Hs as [->|(_ & ds & Hd & ->)]; [now left|right; now exists ds].
  - intros [->|(c & Hc & Hs)]; [reflexivity|].
    destruct Hs as [->|(ds & Hd & ->)].
    + destruct Hc as [->| ->]; reflexivity.
    + destruct Hc as [->| ->].
      * rewrite parseEndpoint_instance_digits;
          [reflexivity|simpl; auto|discriminate|assumption].
      * rewrite parseEndpoint_instance_digits;
          [reflexivity|simpl; auto 10|discriminate|assumption].
Qed.

End EndpointFacts.

(* ===================================================================== *)
(** * What routing changes, and what it leaves alone *)
(* ===================================================================== *)

Section RouterFacts.
Import Js.
Import Internal.
Import IInternalMessage.
Import Observe.
Context {host : Host}.

#[local] Abbreviation Route :=
  (State -> IInternalMessage.t -> option (Outcome (Completion Returned))).

Lemma grows_refl (tid : string) (st : State) : grows tid st st [].
Proof.
  unfold grows. rewrite app_nil_r. repeat split; auto.
Qed.

Lemma grows_emit_l (tid : string) (st st' : State) (e : Effect) (new : list Effect) :
  grows tid (emit st e) st' new -> grows tid st st' (e :: new).
Proof.
  unfold grows. simpl. intros (Hn & Hl & Ht & Ha & Htr).
  repeat split; try assumption. now rewrite Htr, <- app_assoc.
Qed.

Lemma grows_emit_r (tid : string) (st st' : State) (e : Effect) (new : list Effect) :
  grows tid st st' new -> grows tid st (emit st' e) (new ++ [e]).
Proof.
  unfold grows. simpl. intros (Hn & Hl & Ht & Ha & Htr).
  repeat split; try assumption. now rewrite Htr, <- app_assoc.
Qed.

Lemma route_effect_reply (m m' : IInternalMessage.t) (e : Effect) :
  messageType m' = "reply" -> route_effect m' e -> route_effect m e.
Proof.
  intros Hty. destruct e; simpl; auto.
  intros (Hm & _). rewrite Hty in Hm. discriminate Hm.
Qed.

Lemma handleReply_grows (st : State) (m m' : IInternalMessage.t) :
  exists new,
    grows (transactionId m) st (fst (handleReply st m)) new /\
    Forall (route_effect m') new.
Proof.
  unfold handleReply.
  destruct (openTransactions st !! transactionId m) as [p|];
    [|exists []; split; [apply grows_refl|constructor]].
  destruct (truthy (err m)).
  - destruct (hydrate (err m)) as [h|e];
      [|exists []; split; [apply grows_refl|constructor]].
    exists [Reject p h]. split; [|repeat constructor].
    unfold grows. simpl. repeat split; auto.
  - exists [Resolve p (data m)]. split; [|repeat constructor].
    unfold grows. simpl. repeat split; auto.
Qed.

Lemma routeMessageThroughWindow_grows (tid : string) (st : State)
    (m m' : IInternalMessage.t) :
  exists new,
    grows tid st (fst (routeMessageThroughWindow st m)) new /\
    Forall (route_effect m') new.
Proof.
  unfold routeMessageThroughWindow.
  destruct (ensureNamespaceSet st);
    [|exists []; split; [apply grows_refl|constructor]].
  exists [PostVerify (namespace st) context (length (attempts st))].
  split; [|constructor; [reflexivity|constructor]].
  unfold grows. simpl. repeat split; eauto.
Qed.

Lemma handleNewMessage_finally_grows (route : Route) (st : State)
    (m : IInternalMessage.t) (reply e : JsVal) (n : bool) (o : Outcome Settlement) :
  (forall st' m' o', messageType m' = "reply" -> route st' m' = Some o' ->
     exists new, grows (transactionId m') st' (state_after o') new /\
                 Forall (route_effect m') new) ->
  handleNewMessage_finally route st m reply e n = Some o ->
  exists new, grows (transactionId m) st (state_after o) new /\
              Forall (route_effect m) new.
Proof.
  intros Hroute. unfold handleNewMessage_finally.
  match goal with |- context [route ?s ?r] =>
    destruct (route s r) as [routed|] eqn:Hr; [|discriminate];
    destruct (Hroute s r routed) as (new & Hg & Hall);
      [reflexivity|exact Hr|]
  end.
  assert (Hg' : grows (transactionId m) st (state_after routed) new)
    by (destruct (truthy e); exact Hg).
  assert (Hall' : Forall (route_effect m) new).
  { eapply List.Forall_impl; [|exact Hall]. intro x. now apply route_effect_reply. }
  simpl. intros [= <-]. unfold after_route.
  destruct (result routed) as [[|[|x]]|x]; simpl; try (now exists new).
  exists (new ++ [UnhandledRejection x]). split; [now apply grows_emit_r|].
  apply Forall_app. split; [exact Hall'|repeat constructor].
Qed.

Lemma handleInboundMessage_grows (route : Route) (st : State)
    (m : IInternalMessage.t) (o : Outcome Settlement) :
  (forall st' m' o', messageType m' = "reply" -> route st' m' = Some o' ->
     exists new, grows (transactionId m') st' (state_after o') new /\
                 Forall (route_effect m') new) ->
  destination m = None ->
  handleInboundMessage route st m = Some o ->
  exists new, grows (transactionId m) st (state_after o) new /\
              Forall (route_effect m) new.
Proof.
  intros Hroute Hdest. unfold handleInboundMessage.
  destruct (String.eqb (messageType m) "reply").
  - destruct (handleReply_grows st m m) as (new & Hg & Hall).
    destruct (handleReply st m) as [st' c]. intros [= <-]. now exists new.
  - destruct (String.eqb (messageType m) "message") eqn:Hty;
      [|intros [= <-]; exists []; split; [apply grows_refl|constructor]].
    apply String.eqb_eq in Hty.
    unfold handleNewMessage.
    destruct (onMessageListeners st !! messageID m) as [cb|];
      [|now apply handleNewMessage_finally_grows].
    intros Hfin.
    assert (exists new,
              grows (transactionId m)
                    (emit st (Invoke (messageID m) (handler_argument m)))
                    (state_after o) new /\
              Forall (route_effect m) new) as (new & Hg & Hall).
    { destruct (cb (handler_argument m));
        eapply handleNewMessage_finally_grows; eauto. }
    exists (Invoke (messageID m) (handler_argument m) :: new).
    split; [now apply grows_emit_l|].
    constructor; [|exact Hall]. simpl. auto.
Qed.

(** Whatever [routeMessage] does, it does within these bounds. *)
Lemma routeMessage_grows (fuel : nat) (st : State) (m : IInternalMessage.t)
    (o : Outcome (Completion Returned)) :
  routeMessage fuel st m = Some o ->
  exists new, grows (transactionId m) st (state_after o) new /\
              Forall (route_effect m) new.
Proof.
  revert st m o. induction fuel as [|fuel IH]; intros st m o; [discriminate|].
  rewrite routeMessage_S.
  destruct (decide (runtimeId ∈ hops m));
    [intros [= <-]; exists []; split; [apply grows_refl|constructor]|].
  destruct (destination m) as [dest|] eqn:Hdest.
  - destruct (context_set dest);
      [|intros [= <-]; exists []; split; [apply grows_refl|constructor]].
    destruct (routeMessageThroughWindow_grows (transactionId m) st
                (push_hop m runtimeId) m) as (new & Hg & Hall).
    destruct (routeMessageThroughWindow st (push_hop m runtimeId)) as [st' c].
    intros [= <-]. now exists new.
  - destruct (handleInboundMessage (routeMessage fuel) st (push_hop m runtimeId))
      as [o'|] eqn:Hin; [|discriminate].
    intros [= <-]. simpl.
    destruct (handleInboundMessage_grows (routeMessage fuel) st
                (push_hop m runtimeId) o') as (new & Hg & Hall);
      [intros st' m' o'' _; apply IH|exact Hdest|exact Hin|].
    exists new. split; [exact Hg|].
    eapply List.Forall_impl; [|exact Hall]. intros [] ; simpl; auto.
Qed.

Lemma route_effect_posted (m : IInternalMessage.t) (new : list Effect) :
  Forall (route_effect m) new -> posted new = [].
Proof.
  induction 1 as [|e new He _ IH]; [reflexivity|].
  unfold posted in *. simpl. destruct e; simpl in *; try exact IH. contradiction.
Qed.

(** X3. [routeMessage] never changes the namespace or the table of
    listeners; of the pending transactions it removes at most the one the
    envelope names; it starts at most one forwarding attempt and ends none;
    it only adds to the trace, and what it adds holds no broadcast of a full
    envelope: that is left to the acknowledgment of the probe. *)
Theorem routeMessage_frame (fuel : nat) (st : State) (message : IInternalMessage.t)
    (o : Outcome (Completion Returned)) :
  routeMessage fuel st message = Some o ->
  namespace (state_after o) = namespace st /\
  onMessageListeners (state_after o) = onMessageListeners st /\
  (openTransactions (state_after o) = openTransactions st \/
   openTransactions (state_after o)
   = delete (transactionId message) (openTransactions st)) /\
  (attempts (state_after o) = attempts st \/
   exists a, attempts (state_after o) = attempts st ++ [a]) /\
  exists new, trace (state_after o) = trace st ++ new /\ posted new = [].
Proof.
  intros Hr. destruct (routeMessage_grows _ _ _ _ Hr) as (new & Hg & Hall).
  destruct Hg as (Hn & Hl & Ht & Ha & Htr).
  repeat (split; [assumption|]).
  exists new. split; [exact Htr|]. now apply route_effect_posted with message.
Qed.

(** X4. A handler is called by [routeMessage] only for an envelope of type
    [message] without destination, and then it is the handler's identifier
    and argument of that very envelope: routing a reply, or an envelope on
    its way elsewhere, calls nothing. *)
Theorem routeMessage_calls_only_the_addressed_handler
    (fuel : nat) (st : State) (message : IInternalMessage.t)
    (o : Outcome (Completion Returned)) (id : string) (arg : IBridgeMessage.t) :
  routeMessage fuel st message = Some o ->
  In (Invoke id arg) (trace (state_after o)) ->
  In (Invoke id arg) (trace st) \/
  (messageType message = "message" /\ destination message = None /\
   id = messageID message /\ arg = handler_argument message).
Proof.
  intros Hr Hin. destruct (routeMessage_grows _ _ _ _ Hr) as (new & Hg & Hall).
  destruct Hg as (_ & _ & _ & _ & Htr). rewrite Htr in Hin.
  apply in_app_or in Hin. destruct Hin as [Hin|Hin]; [now left|right].
  rewrite List.Forall_forall in Hall. exact (Hall _ Hin).
Qed.

(** Once routed, an envelope carries the local identity. *)
Lemma routeMessage_marks (fuel : nat) (st : State) (m : IInternalMessage.t)
    (o : Outcome (Completion Returned)) :
  routeMessage fuel st m = Some o -> runtimeId ∈ hops (message_after o).
Proof.
  destruct fuel as [|fuel]; [discriminate|]. rewrite routeMessage_S.
  destruct (decide (runtimeId ∈ hops m)) as [Hin|Hnin]; [now intros [= <-]|].
  assert (Hpush : runtimeId ∈ hops (push_hop m runtimeId)) by (simpl; set_solver).
  destruct (destination m) as [dest|].
  - destruct (context_set dest);
      [destruct (routeMessageThroughWindow st (push_hop m runtimeId))|];
      intros [= <-]; exact Hpush.
  - destruct (handleInboundMessage (routeMessage fuel) st (push_hop m runtimeId))
      as [o'|] eqn:Hi; [|discriminate].
    intros [= <-]. simpl. now rewrite (handleInboundMessage_hops _ _ _ _ Hi).
Qed.

(** X5. Routing is idempotent on the envelope object: after one call of
    [routeMessage], whatever it did, a second call on the same object, in
    whatever state, returns at once and changes neither the state nor the
    envelope. *)
Theorem routeMessage_twice_is_once (fuel : nat) (st : State)
    (message : IInternalMessage.t) (o : Outcome (Completion Returned)) :
  routeMessage fuel st message = Some o ->
  forall (fuel' : nat) (st' : State),
    routeMessage (S fuel') st' (message_after o)
    = Some {| state_after := st';
              message_after := message_after o;
              result := Normal Undefined |}.
Proof.
  intros Hr fuel' st'. rewrite routeMessage_S.
  destruct (decide (runtimeId ∈ hops (message_after o))) as [_|Hnin]; [reflexivity|].
  exfalso. apply Hnin. eapply routeMessage_marks, Hr.
Qed.

(** [if (destination.context)] lets through exactly the parses of the
    strings of the endpoint grammar. *)
Lemma context_set_parseEndpoint (s : string) :
  context_set (Utils.parseEndpoint s) = true <-> Utils.endpoint_grammar s.
Proof.
  split.
  - unfold context_set.
    destruct (Endpoint.context (Utils.parseEndpoint s)) as [c|] eqn:Hc; [|discriminate].
    intros _. destruct (parseEndpoint_context s c Hc) as (Hin & [->|(Hne & ds & Hd & ->)]).
    + now apply Utils.grammar_bare.
    + now apply Utils.grammar_instance.
  - intros [c Hc|c ds Hc Hne Hd].
    + unfold Utils.context_names in Hc. simpl in Hc.
      repeat (destruct Hc as [<-|Hc]; [reflexivity|]). destruct Hc.
    + rewrite parseEndpoint_instance_digits by assumption.
      unfold Utils.context_names in Hc. simpl in Hc.
      repeat (destruct Hc as [<-|Hc]; [reflexivity|]). destruct Hc.
Qed.

(** X6. An envelope addressed to what [parseEndpoint] made of a string is
    forwarded exactly when the string is an endpoint of the grammar: then,
    with a namespace, the marked envelope starts an attempt and its probe is
    posted; for any other string nothing is posted, nothing is thrown and no
    reply is made, the envelope only gets its hop mark. *)
Theorem routeMessage_forwards_parsed_endpoints_only
    (fuel : nat) (st : State) (message : IInternalMessage.t) (s : string) :
  runtimeId ∉ hops message ->
  destination message = Some (Utils.parseEndpoint s) ->
  nonempty_string (namespace st) ->
  (Utils.endpoint_grammar s ->
   exists o,
     routeMessage (S fuel) st message = Some o /\
     result o = Normal Undefined /\
     message_after o = push_hop message runtimeId /\
     trace (state_after o)
     = trace st ++ [PostVerify (namespace st) context (length (attempts st))] /\
     attempts (state_after o)
     = attempts st ++ [{| msg := push_hop message runtimeId;
                          onmessage := true; retry := true |}]) /\
  (~ Utils.endpoint_grammar s ->
   routeMessage (S fuel) st message
   = Some {| state_after := st;
             message_after := push_hop message runtimeId;
             result := Normal Undefined |}).
Proof.
  intros Hnin Hdest Hns. rewrite routeMessage_S.
  destruct (decide (runtimeId ∈ hops message)); [contradiction|].
  rewrite Hdest. split; intros Hg.
  - rewrite (proj2 (context_set_parseEndpoint s) Hg).
    destruct (routeMessageThroughWindow_probe st (push_hop message runtimeId) Hns)
      as (st' & -> & Htr & Hat).
    eexists. split; [reflexivity|]. simpl. auto.
  - destruct (context_set (Utils.parseEndpoint s)) eqn:Hc; [|reflexivity].
    exfalso. apply Hg. now apply context_set_parseEndpoint.
Qed.

(** X7. A handler that throws a falsy value ([undefined], [null], [0],
    the empty string, [false]) is treated as one that returned nothing: the
    reply that is routed has [undefined] as its data and the [err] the
    request came with, the request object is not touched, and unless the
    routing of the reply throws the dispatch is fulfilled. *)
Theorem falsy_throw_is_reported_as_success
    (st : State) (message : IInternalMessage.t) (cb : OnMessageCallback) (error : JsVal) :
  messageType message = "message" ->
  onMessageListeners st !! messageID message = Some cb ->
  cb (handler_argument message) = Throws error ->
  truthy error = false ->
  exists sent,
    messageType sent = "reply" /\
    data sent = JUndefined /\
    err sent = err message /\
    destination sent = origin message /\
    transactionId sent = transactionId message /\
    forall route : Route,
      match route (emit st (Invoke (messageID message) (handler_argument message))) sent with
      | None => handleInboundMessage route st message = None
      | Some routed =>
          exists o,
            handleInboundMessage route st message = Some o /\
            message_after o = message /\
            (forall returned, result routed = Normal returned -> result o = Fulfilled)
      end.
Proof.
  intros Hty Hcb Hthrow Ht. exists (reply_envelope message JUndefined).
  repeat (split; [reflexivity|]). intros route.
  unfold handleInboundMessage, handleNewMessage, handleNewMessage_finally.
  unfold OnMessageCallback in *. rewrite Hty, Hcb, Hthrow, Ht. simpl.
  match goal with |- context [route ?s ?r] => destruct (route s r) as [routed|] end;
    [|reflexivity].
  eexists. split; [reflexivity|]. split; [apply after_route_message|].
  intros returned Hres. unfold after_route. rewrite Hres, Ht. reflexivity.
Qed.

(** X8. A request that this context sent to itself and whose handler throws
    a truthy value: the reply comes straight back to the transaction table,
    the pending promise is rejected with the reconstruction of the
    serialized thrown value, the entry is removed, and the request object
    carries the serialized value as its [err]. *)
Theorem local_request_rejects
    (fuel : nat) (st : State) (message : IInternalMessage.t)
    (cb : OnMessageCallback) (error hydratedErr : JsVal) (transactionP : nat) :
  messageType message = "message" ->
  destination message = None ->
  origin message = None ->
  runtimeId ∉ hops message ->
  onMessageListeners st !! messageID message = Some cb ->
  cb (handler_argument message) = Throws error ->
  truthy error = true ->
  truthy (serializeError error) = true ->
  hydrate (serializeError error) = Normal hydratedErr ->
  openTransactions st !! transactionId message = Some transactionP ->
  exists o,
    routeMessage (S (S fuel)) st message = Some o /\
    trace (state_after o)
    = trace st ++ [Invoke (messageID message) (handler_argument message);
                   Reject transactionP hydratedErr] /\
    openTransactions (state_after o) = delete (transactionId message) (openTransactions st) /\
    err (message_after o) = serializeError error.
Proof.
  intros Hty Hdest Horig Hnin Hcb Hthrow Ht Hts Hh Hp.
  rewrite routeMessage_S.
  destruct (decide (runtimeId ∈ hops message)); [contradiction|].
  rewrite Hdest.
  unfold handleInboundMessage, handleNewMessage, handleNewMessage_finally.
  unfold OnMessageCallback in *.
  cbn -[routeMessage hydrate]. rewrite Hty, Hcb.
  change (handler_argument (push_hop message runtimeId)) with (handler_argument message).
  rewrite Hthrow. cbn -[routeMessage hydrate]. rewrite Ht. cbn -[routeMessage hydrate].
  rewrite routeMessage_S. cbn -[routeMessage hydrate].
  destruct (decide (runtimeId ∈ [])) as [Hin|_]; [now apply elem_of_nil in Hin|].
  rewrite Horig. unfold handleInboundMessage, handleReply. cbn -[routeMessage hydrate].
  rewrite Hp, Hts, Hh. cbn.
  eexists. split; [reflexivity|]. cbn.
  split; [now rewrite <- app_assoc|]. split; reflexivity.
Qed.



End RouterFacts.

(* ===================================================================== *)
(** * More about the forwarder: retries and the namespace *)
(* ===================================================================== *)

Section ForwarderRuns.
Import Js.
Import Internal.
Import IInternalMessage.
Import Observe.

Lemma insert_last {A : Type} (l : list A) (i : nat) (x y : A) :
  length l = i -> <[i := x]> (l ++ [y]) = l ++ [x].
Proof.
  intros <-. replace (length l) with (length l + 0) by lia.
  now rewrite insert_app_r.
Qed.

Lemma posted_snoc_PostVerify (tr : list Effect) (scope : JsVal) (ctx : string) (port2 : nat) :
  posted (tr ++ [PostVerify scope ctx port2]) = posted tr.
Proof. unfold posted. rewrite List.filter_app. simpl. apply app_nil_r. Qed.

Lemma deliver_RetryTimeout_posted (st : State) (ch : nat) :
  posted (trace (fst (deliver st (RetryTimeout ch)))) = posted (trace st).
Proof.
  simpl. destruct (attempts st !! ch) as [a|]; [|reflexivity].
  destruct (retry a); [|reflexivity].
  unfold retry_callback, routeMessageThroughWindow.
  match goal with |- context [ensureNamespaceSet ?s] => destruct (ensureNamespaceSet s) end;
    [|reflexivity].
  simpl. apply posted_snoc_PostVerify.
Qed.

(** X10. Timers never broadcast: whatever the state and however many
    timeouts fire, in whatever order, the envelopes broadcast so far stay
    the ones they were.  Only an acknowledgment on a port makes the
    forwarder post a full envelope. *)
Theorem timeouts_alone_never_broadcast (st : State) (evs : list Event) :
  forallb is_RetryTimeout evs = true ->
  posted (trace (run st evs)) = posted (trace st).
Proof.
  revert st. induction evs as [|ev evs IH]; intros st Hall; [reflexivity|].
  simpl in Hall. apply andb_prop in Hall as [Hev Hall].
  destruct ev as [ch|ch]; [discriminate Hev|].
  change (run st (RetryTimeout ch :: evs))
    with (run (fst (deliver st (RetryTimeout ch))) evs).
  rewrite IH by exact Hall. apply deliver_RetryTimeout_posted.
Qed.

(** X11. There is no bound on the retries.  When the probes of a
    forwarding get no answer and the timer of each attempt fires in turn,
    then after [k] timeouts [k + 1] probes were posted, each with the port
    of a channel of its own, the [k] timed-out attempts are detached, and
    the latest attempt is waiting with its timer pending. *)
Theorem unanswered_probe_is_retried_without_bound
    (st0 : State) (m : IInternalMessage.t) (k : nat) :
  nonempty_string (namespace st0) ->
  attempts (run (fst (routeMessageThroughWindow st0 m))
                (map RetryTimeout (seq (length (attempts st0)) k)))
  = attempts st0
    ++ repeat {| msg := m; onmessage := false; retry := false |} k
    ++ [{| msg := m; onmessage := true; retry := true |}] /\
  trace (run (fst (routeMessageThroughWindow st0 m))
             (map RetryTimeout (seq (length (attempts st0)) k)))
  = trace st0
    ++ map (PostVerify (namespace st0) context) (seq (length (attempts st0)) (S k)).
Proof.
  intros Hns.
  destruct (routeMessageThroughWindow_probe st0 m Hns) as (st1 & Hr & Htr1 & Hat1).
  rewrite Hr. simpl fst.
  induction k as [|k [IHa IHt]].
  - simpl. split; assumption.
  - rewrite seq_S, map_app, run_app.
    set (st := run st1 (map RetryTimeout (seq (length (attempts st0)) k))) in *.
    assert (Hnsk : nonempty_string (namespace st)).
    { unfold st. rewrite run_namespace.
      pose proof (f_equal fst Hr) as Hf. simpl in Hf. rewrite <- Hf.
      unfold routeMessageThroughWindow. now destruct (ensureNamespaceSet st0). }
    assert (Hnseq : namespace st = namespace st0).
    { unfold st. rewrite run_namespace.
      pose proof (f_equal fst Hr) as Hf. simpl in Hf. rewrite <- Hf.
      unfold routeMessageThroughWindow. now destruct (ensureNamespaceSet st0). }
    assert (Hlen : length (attempts st) = S (length (attempts st0) + k)).
    { rewrite IHa, !length_app, repeat_length. simpl. lia. }
    assert (Hl : attempts st !! (length (attempts st0) + k)
                 = Some {| msg := m; onmessage := true; retry := true |}).
    { rewrite IHa, app_assoc. apply list_lookup_middle.
      rewrite length_app, repeat_length. reflexivity. }
    destruct (deliver_RetryTimeout st _ _ Hnsk Hl eq_refl) as (st' & Hd & Hat & Htr).
    change (run st (map RetryTimeout [length (attempts st0) + k]))
      with (fst (deliver st (RetryTimeout (length (attempts st0) + k)))).
    rewrite Hd. simpl fst. split.
    + rewrite Hat, IHa, app_assoc.
      rewrite insert_last by (rewrite length_app, repeat_length; reflexivity).
      cbn [msg]. rewrite <- !app_assoc. f_equal. cbn [repeat].
      rewrite (repeat_cons k), <- app_assoc. reflexivity.
    + rewrite Htr, IHt, Hnseq, Hlen, <- app_assoc. f_equal.
      rewrite (seq_S (S k) (length (attempts st0))), map_app, Nat.add_succ_r.
      reflexivity.
Qed.

(** X12. The scope of the broadcast is the namespace at the time of the
    acknowledgment, not the one the probe went out with: the port callback
    reads the module variable when it runs, and makes no check of it. *)
Theorem broadcast_carries_the_namespace_of_its_time
    (st0 : State) (m : IInternalMessage.t) (nsps : JsVal) :
  nonempty_string (namespace st0) ->
  trace (fst (deliver (setNamespace (fst (routeMessageThroughWindow st0 m)) nsps)
                      (PortMessage (length (attempts st0)))))
  = trace st0 ++ [PostVerify (namespace st0) context (length (attempts st0));
                  PostRoute nsps context m].
Proof.
  intros Hns.
  destruct (routeMessageThroughWindow_probe st0 m Hns) as (st1 & Hr & Htr1 & Hat1).
  rewrite Hr. simpl. rewrite Hat1.
  rewrite list_lookup_middle by reflexivity. simpl.
  rewrite Htr1, <- app_assoc. reflexivity.
Qed.

Lemma deliver_inert (st : State) (ev : Event) :
  Forall inert (attempts st) -> deliver st ev = (st, Normal tt).
Proof.
  intros Hall. destruct ev as [ch|ch]; simpl;
    destruct (attempts st !! ch) as [a|] eqn:Hl; try reflexivity;
    (assert (Ha : inert a)
       by (rewrite List.Forall_forall in Hall; apply Hall, list_elem_of_In,
           list_elem_of_lookup; now exists ch));
    destruct Ha as [Ho Hre]; now rewrite ?Ho, ?Hre.
Qed.

Lemma run_inert (st : State) (evs : list Event) :
  Forall inert (attempts st) -> run st evs = st.
Proof.
  intros Hall. induction evs as [|ev evs IH]; [reflexivity|].
  simpl. now rewrite deliver_inert.
Qed.

(** X13. When the namespace is taken away while a probe is unanswered,
    the timeout ends the forwarding: the attempt is detached, the retry
    throws the misconfiguration error inside the timer callback, and in no
    later run of ports and timers is the envelope broadcast or probed
    again. *)
Theorem retry_without_namespace_ends_the_forwarding
    (st0 : State) (m : IInternalMessage.t) (nsps : JsVal) :
  nonempty_string (namespace st0) ->
  ~ nonempty_string nsps ->
  Forall inert (attempts st0) ->
  snd (deliver (setNamespace (fst (routeMessageThroughWindow st0 m)) nsps)
               (RetryTimeout (length (attempts st0))))
  = Throw (error_instance "Error" namespace_error_message) /\
  forall evs,
    trace (run (fst (deliver (setNamespace (fst (routeMessageThroughWindow st0 m)) nsps)
                             (RetryTimeout (length (attempts st0))))) evs)
    = trace st0 ++ [PostVerify (namespace st0) context (length (attempts st0))].
Proof.
  intros Hns Hbad Hall.
  destruct (routeMessageThroughWindow_probe st0 m Hns) as (st1 & Hr & Htr1 & Hat1).
  rewrite Hr. change (fst (st1, @Normal unit tt)) with st1.
  assert (Hd : deliver (setNamespace st1 nsps) (RetryTimeout (length (attempts st0)))
               = (with_attempts (setNamespace st1 nsps)
                    (attempts st0 ++ [{| msg := m; onmessage := false; retry := false |}]),
                  Throw (error_instance "Error" namespace_error_message))).
  { simpl. rewrite Hat1. rewrite list_lookup_middle by reflexivity. simpl.
    unfold retry_callback, routeMessageThroughWindow.
    match goal with |- context [ensureNamespaceSet ?s] =>
      destruct (ensureNamespaceSet_spec s) as [[Hgood _]|[_ ->]]
    end; [contradiction|].
    simpl. rewrite Hat1. rewrite insert_last by reflexivity. reflexivity. }
  rewrite Hd. split; [reflexivity|]. intros evs.
  rewrite run_inert; [exact Htr1|].
  simpl. apply Forall_app. split; [exact Hall|]. repeat constructor.
Qed.

End ForwarderRuns.

(* ===================================================================== *)
(** * The listener on the window *)
(* ===================================================================== *)

Section RelayFacts.
Import Js.
Import Internal.
Import IInternalMessage.
Import Observe.
Import Relay.
Context {host : Host}.

Lemma strict_equal_eq (a b : JsVal) : strict_equal a b = true -> a = b.
Proof.
  destruct a, b; simpl; try discriminate; try reflexivity.
  - intros H. apply Bool.eqb_prop in H. now subst.
  - intros H. apply Z.eqb_eq in H. now subst.
  - intros H. apply String.eqb_eq in H. now subst.
Qed.

Lemma strict_equal_JStr (a : JsVal) (s : string) :
  strict_equal a (JStr s) = false <-> a <> JStr s.
Proof.
  destruct a; simpl; try (split; [discriminate|reflexivity]).
  destruct (String.eqb_spec s0 s) as [->|Hne]; split; congruence.
Qed.

(** What the forwarder's callbacks add to the trace are posts in the name
    of this context. *)
Lemma deliver_own_posts (st : State) (ev : Event) :
  exists new, trace (fst (deliver st ev)) = trace st ++ new /\ Forall own_post new.
Proof.
  destruct ev as [ch|ch]; simpl; destruct (attempts st !! ch) as [a|];
    try (exists []; split; [now rewrite app_nil_r|constructor]).
  - destruct (onmessage a); [|exists []; split; [now rewrite app_nil_r|constructor]].
    eexists [_]. split; [reflexivity|]. repeat constructor.
  - destruct (retry a); [|exists []; split; [now rewrite app_nil_r|constructor]].
    unfold retry_callback, routeMessageThroughWindow.
    match goal with |- context [ensureNamespaceSet ?s] => destruct (ensureNamespaceSet s) end;
      [|exists []; split; [now rewrite app_nil_r|constructor]].
    eexists [_]. split; [reflexivity|]. repeat constructor.
Qed.

Lemma run_own_posts (st : State) (evs : list Event) :
  exists new, trace (run st evs) = trace st ++ new /\ Forall own_post new.
Proof.
  revert st. induction evs as [|ev evs IH]; intros st.
  - exists []. split; [now rewrite app_nil_r|constructor].
  - simpl. destruct (IH (fst (deliver st ev))) as (new2 & Htr2 & Hall2).
    destruct (deliver_own_posts st ev) as (new1 & Htr1 & Hall1).
    exists (new1 ++ new2). split; [now rewrite Htr2, Htr1, app_assoc|].
    apply Forall_app. now split.
Qed.

Lemma own_post_ignored (fuel : nat) (st : State) (e : Effect) (ev : MessageEvent) :
  match e with
  | PostVerify _ ctx _ | PostRoute _ ctx _ => ctx = Internal.context
  | _ => True
  end ->
  posted_event e = Some ev ->
  handleWindowOnMessage fuel st ev
  = Some {| state := st; acknowledged := None; settled := Fulfilled |}.
Proof.
  destruct e; simpl; try discriminate; intros -> [= <-];
    unfold handleWindowOnMessage; simpl; now rewrite !andb_false_r.
Qed.

(** X14. The module does not talk to itself.  Every message the forwarder
    posts on the window, from a port or a timer callback or out of
    [routeMessage], is ignored by the listener of this same module when the
    window hands it back, in whatever state: no acknowledgment, no routing,
    no change. *)
Theorem listener_ignores_own_posts
    (fuel : nat) (st' : State) (e : Effect) (ev : MessageEvent) :
  posted_event e = Some ev ->
  (exists st evs, In e (trace (run st evs)) /\ ~ In e (trace st)) \/
  (exists f st m o, routeMessage f st m = Some o /\
                    In e (trace (state_after o)) /\ ~ In e (trace st)) ->
  handleWindowOnMessage fuel st' ev
  = Some {| state := st'; acknowledged := None; settled := Fulfilled |}.
Proof.
  intros Hev [(st & evs & Hin & Hnin)|(f & st & m & o & Hr & Hin & Hnin)].
  - destruct (run_own_posts st evs) as (new & Htr & Hall).
    rewrite Htr in Hin. apply in_app_or in Hin as [Hin|Hin]; [contradiction|].
    rewrite List.Forall_forall in Hall. specialize (Hall _ Hin).
    apply own_post_ignored with e; [|exact Hev]. destruct e; simpl in *; auto.
  - destruct (routeMessage_grows _ _ _ _ Hr) as (new & (_ & _ & _ & _ & Htr) & Hall).
    rewrite Htr in Hin. apply in_app_or in Hin as [Hin|Hin]; [contradiction|].
    rewrite List.Forall_forall in Hall. specialize (Hall _ Hin).
    apply own_post_ignored with e; [|exact Hev]. destruct e; simpl in *; auto.
    contradiction.
Qed.

(** X15. A probe is acknowledged exactly when it asks for the listener,
    carries the very namespace of this module, comes from another context
    and brings a port; the acknowledgment goes to the first port.  The
    namespace is compared as it is, set or not: a module whose namespace was
    never set acknowledges the probes that carry no scope. *)
Theorem probe_acknowledged_iff
    (fuel : nat) (st : State) (ev : MessageEvent) (port : nat) :
  (exists h, handleWindowOnMessage fuel st ev = Some h /\ acknowledged h = Some port) <->
  (cmd (data ev) = JStr "__crx_bridge_verify_listening" /\
   strict_equal (scope (data ev)) (namespace st) = true /\
   context (data ev) <> JStr Internal.context /\
   head (ports ev) = Some port).
Proof.
  unfold handleWindowOnMessage. split.
  - intros (h & Hh & Hack).
    destruct (strict_equal (cmd (data ev)) (JStr "__crx_bridge_verify_listening")
              && strict_equal (scope (data ev)) (namespace st)
              && negb (strict_equal (context (data ev)) (JStr Internal.context)))
      eqn:Hguard.
    + apply andb_prop in Hguard as [Hguard Hctx].
      apply andb_prop in Hguard as [Hcmd Hscope].
      apply negb_true_iff in Hctx.
      destruct (ports ev) as [|p rest]; injection Hh as <-; [discriminate Hack|].
      simpl in Hack. injection Hack as ->.
      split; [now apply strict_equal_eq|]. split; [exact Hscope|].
      split; [now apply strict_equal_JStr|reflexivity].
    + exfalso.
      repeat match type of Hh with
             | context [match ?x with _ => _ end] => destruct x
             | context [if ?x then _ else _] => destruct x
             end;
        try discriminate Hh; injection Hh as <-; discriminate Hack.
  - intros (Hcmd & Hscope & Hctx & Hport).
    apply strict_equal_JStr in Hctx. rewrite Hcmd, Hscope, Hctx. simpl.
    destruct (ports ev) as [|p rest]; [discriminate Hport|].
    injection Hport as ->. eexists. split; reflexivity.
Qed.

(** X16. A request that reaches this context through the window, from
    another context of the same namespace, is answered through the window:
    the handler is called with the request, the listener's promise is
    fulfilled, a probe for the reply goes out on a new channel, and when
    that probe is acknowledged the reply is broadcast with the handler's
    value as data, addressed to the origin of the request, under the
    transaction of the request and with this module as its only hop. *)
Theorem request_through_the_window_is_answered
    (fuel : nat) (st : State) (ev : MessageEvent) (c : string)
    (request : IInternalMessage.t) (from : Endpoint.t)
    (cb : OnMessageCallback) (reply : JsVal) :
  cmd (data ev) = JStr "__crx_bridge_route_message" ->
  scope (data ev) = namespace st ->
  nonempty_string (namespace st) ->
  context (data ev) = JStr c ->
  c <> Internal.context ->
  payload (data ev) = Some request ->
  messageType request = "message" ->
  destination request = None ->
  origin request = Some from ->
  context_set from = true ->
  runtimeId ∉ hops request ->
  onMessageListeners st !! messageID request = Some cb ->
  cb (handler_argument request) = Returns reply ->
  exists h sent,
    handleWindowOnMessage (S (S fuel)) st ev = Some h /\
    acknowledged h = None /\
    settled h = Fulfilled /\
    trace (state h)
    = trace st ++ [Invoke (messageID request) (handler_argument request);
                   PostVerify (namespace st) Internal.context (length (attempts st))] /\
    posted (trace (fst (deliver (state h) (PortMessage (length (attempts st))))))
    = posted (trace st) ++ [PostRoute (namespace st) Internal.context sent] /\
    messageType sent = "reply" /\
    IInternalMessage.data sent = reply /\
    destination sent = Some from /\
    transactionId sent = transactionId request /\
    messageID sent = messageID request /\
    err sent = err request /\
    hops sent = [runtimeId].
Proof.
  intros Hcmd Hscope Hns Hctx Hc Hpay Hty Hdest Horig Hfrom Hnin Hcb Hret.
  unfold handleWindowOnMessage. rewrite Hcmd, Hscope, Hctx, Hpay.
  destruct Hns as (ns & Hnsv & Hne). rewrite Hnsv.
  cbn -[routeMessage]. rewrite String.eqb_refl.
  destruct (String.eqb_spec c Internal.context) as [->|_]; [now contradiction Hc|].
  cbn -[routeMessage].
  rewrite routeMessage_S.
  destruct (decide (runtimeId ∈ hops request)); [contradiction|].
  rewrite Hdest.
  unfold handleInboundMessage, handleNewMessage, handleNewMessage_finally.
  unfold OnMessageCallback in *.
  cbn -[routeMessage]. rewrite Hty, Hcb.
  change (handler_argument (push_hop request runtimeId)) with (handler_argument request).
  rewrite Hret. cbn -[routeMessage].
  rewrite routeMessage_S. cbn -[routeMessage].
  destruct (decide (runtimeId ∈ [])) as [Hin|_]; [now apply elem_of_nil in Hin|].
  rewrite Horig, Hfrom.
  match goal with |- context [routeMessageThroughWindow ?s ?m] =>
    destruct (routeMessageThroughWindow_grows EmptyString s m m)
      as (new0 & (Hn2 & _) & _);
    destruct (routeMessageThroughWindow_probe s m) as (st2 & Hr2 & Htr2 & Hat2);
      [exists ns; now split|];
    rewrite Hr2 in *
  end.
  cbn in Hn2. rewrite Hnsv in Hn2.
  cbn. eexists.
  exists (push_hop (reply_envelope (push_hop request runtimeId) reply) runtimeId).
  split; [reflexivity|]. cbn.
  split; [reflexivity|]. split; [reflexivity|].
  split; [rewrite Htr2; cbn; rewrite Hnsv, <- app_assoc; reflexivity|].
  split.
  - rewrite Hat2. cbn. rewrite list_lookup_middle by reflexivity. cbn.
    rewrite Htr2, Hn2. cbn. unfold posted. rewrite !List.filter_app. cbn.
    rewrite !app_nil_r. reflexivity.
  - cbn. rewrite Horig. repeat split.
Qed.

(** X17. A reply that reaches this context through the window settles the
    transaction that waits for it, once: the promise is resolved with the
    data of the reply, or rejected with the reconstructed error when the
    reply carries one, the entry leaves the table, and nothing is posted or
    acknowledged. *)
Theorem reply_through_the_window_settles
    (fuel : nat) (st : State) (ev : MessageEvent)
    (reply : IInternalMessage.t) (transactionP : nat) (hydratedErr : JsVal) :
  cmd (data ev) = JStr "__crx_bridge_route_message" ->
  strict_equal (scope (data ev)) (namespace st) = true ->
  context (data ev) <> JStr Internal.context ->
  payload (data ev) = Some reply ->
  messageType reply = "reply" ->
  destination reply = None ->
  runtimeId ∉ hops reply ->
  openTransactions st !! transactionId reply = Some transactionP ->
  (truthy (err reply) = true -> hydrate (err reply) = Normal hydratedErr) ->
  exists h,
    handleWindowOnMessage (S fuel) st ev = Some h /\
    acknowledged h = None /\
    settled h = Fulfilled /\
    trace (state h)
    = trace st ++ [if truthy (err reply) then Reject transactionP hydratedErr
                   else Resolve transactionP (IInternalMessage.data reply)] /\
    openTransactions (state h) = delete (transactionId reply) (openTransactions st) /\
    attempts (state h) = attempts st.
Proof.
  intros Hcmd Hscope Hctx Hpay Hty Hdest Hnin Hp Hh.
  apply strict_equal_JStr in Hctx.
  unfold handleWindowOnMessage. rewrite Hcmd, Hscope, Hctx, Hpay.
  cbn -[routeMessage].
  rewrite routeMessage_S.
  destruct (decide (runtimeId ∈ hops reply)); [contradiction|].
  rewrite Hdest. rewrite handleInboundMessage_reply by exact Hty.
  unfold handleReply. cbn -[hydrate]. rewrite Hp.
  destruct (truthy (err reply)) eqn:Ht.
  - rewrite (Hh eq_refl). cbn. eexists. repeat split.
  - cbn. eexists. repeat split.
Qed.

(** X18. A module without a valid namespace still takes the requests that
    arrive with its (unset) namespace as scope: the handler is called; but
    the reply cannot leave, since the forwarder refuses to work without a
    namespace.  Nothing is posted, no attempt starts, and the error of the
    forwarder ends up as a rejection nobody handles. *)
Theorem unset_namespace_handles_but_cannot_answer
    (fuel : nat) (st : State) (ev : MessageEvent) (c : string)
    (request : IInternalMessage.t) (from : Endpoint.t)
    (cb : OnMessageCallback) (reply : JsVal) :
  cmd (data ev) = JStr "__crx_bridge_route_message" ->
  strict_equal (scope (data ev)) (namespace st) = true ->
  ~ nonempty_string (namespace st) ->
  context (data ev) = JStr c ->
  c <> Internal.context ->
  payload (data ev) = Some request ->
  messageType request = "message" ->
  destination request = None ->
  origin request = Some from ->
  context_set from = true ->
  runtimeId ∉ hops request ->
  onMessageListeners st !! messageID request = Some cb ->
  cb (handler_argument request) = Returns reply ->
  handleWindowOnMessage (S (S fuel)) st ev
  = Some {| state :=
              emit (emit st (Invoke (messageID request) (handler_argument request)))
                   (UnhandledRejection (error_instance "Error" namespace_error_message));
            acknowledged := None;
            settled := Fulfilled |}.
Proof.
  intros Hcmd Hscope Hns Hctx Hc Hpay Hty Hdest Horig Hfrom Hnin Hcb Hret.
  unfold handleWindowOnMessage. rewrite Hcmd, Hscope, Hctx, Hpay.
  cbn -[routeMessage].
  destruct (String.eqb_spec c Internal.context) as [->|_]; [now contradiction Hc|].
  cbn -[routeMessage].
  rewrite routeMessage_S.
  destruct (decide (runtimeId ∈ hops request)); [contradiction|].
  rewrite Hdest.
  unfold handleInboundMessage, handleNewMessage, handleNewMessage_finally.
  unfold OnMessageCallback in *.
  cbn -[routeMessage]. rewrite Hty, Hcb.
  change (handler_argument (push_hop request runtimeId)) with (handler_argument request).
  rewrite Hret. cbn -[routeMessage].
  rewrite routeMessage_S. cbn -[routeMessage].
  destruct (decide (runtimeId ∈ [])) as [Hin|_]; [now apply elem_of_nil in Hin|].
  rewrite Horig, Hfrom. unfold routeMessageThroughWindow.
  match goal with |- context [ensureNamespaceSet ?s] =>
    destruct (ensureNamespaceSet_spec s) as [[Hgood _]|[_ ->]]
  end; [contradiction|].
  reflexivity.
Qed.

End RelayFacts.

(* ===================================================================== *)
(** * The same facts on runs of the window host *)
(* ===================================================================== *)

Section MoreRuns.
Import Js.
Import Internal.
Import IInternalMessage.
Import Observe.

Lemma nonempty_ns : nonempty_string (JStr "ns").
Proof. exists "ns". split; [reflexivity|discriminate]. Qed.

Lemma routeMessage_frame_witness :
  exists o,
    routeMessage (host := Sample.window_host) 2
      (Sample.state_with (JStr "ns") {["t1" := 7]} {["ping" := Sample.pong_handler]})
      Sample.local_ping
    = Some o /\
    (namespace (state_after o) = JStr "ns" /\
     onMessageListeners (state_after o) = {["ping" := Sample.pong_handler]} /\
     (openTransactions (state_after o) = {["t1" := 7]} \/
      openTransactions (state_after o) = delete "t1" {["t1" := 7]}) /\
     (attempts (state_after o) = [] \/ exists a, attempts (state_after o) = [] ++ [a]) /\
     exists new, trace (state_after o) = [] ++ new /\ posted new = []).
Proof.
  eexists. split; [vm_compute; reflexivity|].
  refine (routeMessage_frame (host := Sample.window_host) 2
            (Sample.state_with (JStr "ns") {["t1" := 7]} {["ping" := Sample.pong_handler]})
            Sample.local_ping _ _).
  vm_compute. reflexivity.
Defined.

Lemma routeMessage_calls_only_the_addressed_handler_witness :
  exists o,
    routeMessage (host := Sample.window_host) 2
      (Sample.state_with (JStr "ns") ∅ {["ping" := Sample.pong_handler]}) Sample.ping
    = Some o /\
    In (Invoke "ping" (handler_argument Sample.ping)) (trace (state_after o)) /\
    (In (Invoke "ping" (handler_argument Sample.ping)) [] \/
     (messageType Sample.ping = "message" /\ destination Sample.ping = None /\
      "ping" = messageID Sample.ping /\
      handler_argument Sample.ping = handler_argument Sample.ping)).
Proof.
  eexists. split; [vm_compute; reflexivity|]. split; [left; reflexivity|].
  refine (routeMessage_calls_only_the_addressed_handler (host := Sample.window_host) 2
            (Sample.state_with (JStr "ns") ∅ {["ping" := Sample.pong_handler]})
            Sample.ping _ "ping" (handler_argument Sample.ping) _ _).
  - vm_compute. reflexivity.
  - left. reflexivity.
Defined.

Lemma routeMessage_twice_is_once_witness :
  exists o,
    routeMessage (host := Sample.window_host) 2
      (Sample.state_with (JStr "ns") ∅ {["ping" := Sample.pong_handler]}) Sample.ping
    = Some o /\
    forall (fuel' : nat) (st' : State),
      routeMessage (host := Sample.window_host) (S fuel') st' (message_after o)
      = Some {| state_after := st';
                message_after := message_after o;
                result := Normal Undefined |}.
Proof.
  eexists. split; [vm_compute; reflexivity|].
  refine (routeMessage_twice_is_once (host := Sample.window_host) 2
            (Sample.state_with (JStr "ns") ∅ {["ping" := Sample.pong_handler]})
            Sample.ping _ _).
  vm_compute. reflexivity.
Defined.

Lemma routeMessage_forwards_parsed_endpoints_only_witness :
  (exists o,
     routeMessage (host := Sample.window_host) 1 (Sample.state_with (JStr "ns") ∅ ∅)
       (SampleRelay.addressed "content-script@12")
     = Some o /\
     result o = Normal Undefined /\
     message_after o = push_hop (SampleRelay.addressed "content-script@12") "w1" /\
     trace (state_after o) = [] ++ [PostVerify (JStr "ns") context 0] /\
     attempts (state_after o)
     = [] ++ [{| msg := push_hop (SampleRelay.addressed "content-script@12") "w1";
                 onmessage := true; retry := true |}]) /\
  routeMessage (host := Sample.window_host) 1 (Sample.state_with (JStr "ns") ∅ ∅)
    (SampleRelay.addressed "content-script@")
  = Some {| state_after := Sample.state_with (JStr "ns") ∅ ∅;
            message_after := push_hop (SampleRelay.addressed "content-script@") "w1";
            result := Normal Undefined |}.
Proof.
  split.
  - refine (proj1 (routeMessage_forwards_parsed_endpoints_only
                     (host := Sample.window_host) 0 (Sample.state_with (JStr "ns") ∅ ∅)
                     (SampleRelay.addressed "content-script@12") "content-script@12"
                     _ eq_refl nonempty_ns) _).
    + apply not_elem_of_nil.
    + apply (Utils.grammar_instance "content-script" "12");
        [simpl; auto 10|discriminate|reflexivity].
  - refine (proj2 (routeMessage_forwards_parsed_endpoints_only
                     (host := Sample.window_host) 0 (Sample.state_with (JStr "ns") ∅ ∅)
                     (SampleRelay.addressed "content-script@") "content-script@"
                     _ eq_refl nonempty_ns) _).
    + apply not_elem_of_nil.
    + intros Hg. now apply grammar_ENDPOINT_RE_match in Hg.
Defined.

Lemma falsy_throw_is_reported_as_success_witness :
  exists sent,
    messageType sent = "reply" /\
    data sent = JUndefined /\
    err sent = err Sample.ping /\
    destination sent = origin Sample.ping /\
    transactionId sent = transactionId Sample.ping /\
    forall route : State -> IInternalMessage.t -> option (Outcome (Completion Returned)),
      match route (emit (Sample.state_with (JStr "ns") ∅
                           {["ping" := SampleRelay.falsy_handler]})
                        (Invoke (messageID Sample.ping) (handler_argument Sample.ping)))
                  sent with
      | None =>
          handleInboundMessage (host := Sample.window_host) route
            (Sample.state_with (JStr "ns") ∅ {["ping" := SampleRelay.falsy_handler]})
            Sample.ping
          = None
      | Some routed =>
          exists o,
            handleInboundMessage (host := Sample.window_host) route
              (Sample.state_with (JStr "ns") ∅ {["ping" := SampleRelay.falsy_handler]})
              Sample.ping
            = Some o /\
            message_after o = Sample.ping /\
            (forall returned, result routed = Normal returned -> result o = Fulfilled)
      end.
Proof.
  refine (falsy_throw_is_reported_as_success (host := Sample.window_host)
            (Sample.state_with (JStr "ns") ∅ {["ping" := SampleRelay.falsy_handler]})
            Sample.ping SampleRelay.falsy_handler (JNum 0) eq_refl _ eq_refl eq_refl).
  vm_compute. reflexivity.
Defined.

Lemma local_request_rejects_witness :
  exists o,
    routeMessage (host := Sample.window_host) 2
      (Sample.state_with (JStr "ns") {["t1" := 7]} {["ping" := Sample.throwing_handler]})
      Sample.local_ping
    = Some o /\
    trace (state_after o)
    = [] ++ [Invoke (messageID Sample.local_ping) (handler_argument Sample.local_ping);
             Reject 7 (JObj (Some "Error")
                         [("message", (false, JStr "boom"));
                          ("name", (true, JStr "Error"))])] /\
    openTransactions (state_after o)
    = delete (transactionId Sample.local_ping) {["t1" := 7]} /\
    err (message_after o) = Sample.serialize Sample.boom.
Proof.
  refine (local_request_rejects (host := Sample.window_host) 0
            (Sample.state_with (JStr "ns") {["t1" := 7]} {["ping" := Sample.throwing_handler]})
            Sample.local_ping Sample.throwing_handler Sample.boom
            (JObj (Some "Error")
               [("message", (false, JStr "boom")); ("name", (true, JStr "Error"))])
            7 eq_refl eq_refl eq_refl _ _ eq_refl eq_refl eq_refl _ _).
  - apply not_elem_of_nil.
  - vm_compute. reflexivity.
  - vm_compute. reflexivity.
  - vm_compute. reflexivity.
Defined.


Lemma timeouts_alone_never_broadcast_witness :
  posted (trace (run (fst (routeMessageThroughWindow (Sample.state_with (JStr "ns") ∅ ∅)
                                                     Sample.outbound))
                     [RetryTimeout 0; RetryTimeout 1; RetryTimeout 0]))
  = posted (trace (fst (routeMessageThroughWindow (Sample.state_with (JStr "ns") ∅ ∅)
                                                  Sample.outbound))).
Proof.
  apply (timeouts_alone_never_broadcast
           (fst (routeMessageThroughWindow (Sample.state_with (JStr "ns") ∅ ∅)
                                           Sample.outbound))
           [RetryTimeout 0; RetryTimeout 1; RetryTimeout 0]).
  reflexivity.
Defined.

Lemma unanswered_probe_is_retried_without_bound_witness :
  attempts (run (fst (routeMessageThroughWindow (Sample.state_with (JStr "ns") ∅ ∅)
                                                Sample.outbound))
                (map RetryTimeout (seq 0 3)))
  = [] ++ repeat {| msg := Sample.outbound; onmessage := false; retry := false |} 3
       ++ [{| msg := Sample.outbound; onmessage := true; retry := true |}] /\
  trace (run (fst (routeMessageThroughWindow (Sample.state_with (JStr "ns") ∅ ∅)
                                             Sample.outbound))
             (map RetryTimeout (seq 0 3)))
  = [] ++ map (PostVerify (JStr "ns") context) (seq 0 4).
Proof.
  exact (unanswered_probe_is_retried_without_bound
           (Sample.state_with (JStr "ns") ∅ ∅) Sample.outbound 3 nonempty_ns).
Defined.

Lemma broadcast_carries_the_namespace_of_its_time_witness :
  trace (fst (deliver (setNamespace
                         (fst (routeMessageThroughWindow (Sample.state_with (JStr "ns") ∅ ∅)
                                                         Sample.outbound))
                         JUndefined)
                      (PortMessage 0)))
  = [] ++ [PostVerify (JStr "ns") context 0; PostRoute JUndefined context Sample.outbound].
Proof.
  exact (broadcast_carries_the_namespace_of_its_time
           (Sample.state_with (JStr "ns") ∅ ∅) Sample.outbound JUndefined nonempty_ns).
Defined.

Lemma retry_without_namespace_ends_the_forwarding_witness :
  snd (deliver (setNamespace
                  (fst (routeMessageThroughWindow (Sample.state_with (JStr "ns") ∅ ∅)
                                                  Sample.outbound))
                  (JStr EmptyString))
               (RetryTimeout 0))
  = Throw (error_instance "Error" namespace_error_message) /\
  forall evs,
    trace (run (fst (deliver (setNamespace
                                (fst (routeMessageThroughWindow
                                        (Sample.state_with (JStr "ns") ∅ ∅) Sample.outbound))
                                (JStr EmptyString))
                             (RetryTimeout 0))) evs)
    = [] ++ [PostVerify (JStr "ns") context 0].
Proof.
  refine (retry_without_namespace_ends_the_forwarding
            (Sample.state_with (JStr "ns") ∅ ∅) Sample.outbound (JStr EmptyString)
            nonempty_ns _ _).
  - intros (s & [= <-] & Hne). now apply Hne.
  - constructor.
Defined.

Lemma listener_ignores_own_posts_witness :
  Relay.handleWindowOnMessage (host := Sample.window_host) 2
    (Sample.state_with (JStr "ns") ∅ {["ping" := Sample.pong_handler]})
    {| Relay.data := {| Relay.cmd := JStr "__crx_bridge_route_message";
                        Relay.scope := JStr "ns";
                        Relay.context := JStr "window";
                        Relay.payload := Some Sample.ping |};
       Relay.ports := [] |}
  = Some {| Relay.state := Sample.state_with (JStr "ns") ∅ {["ping" := Sample.pong_handler]};
            Relay.acknowledged := None;
            Relay.settled := Fulfilled |}.
Proof.
  refine (listener_ignores_own_posts (host := Sample.window_host) 2
            (Sample.state_with (JStr "ns") ∅ {["ping" := Sample.pong_handler]})
            (PostRoute (JStr "ns") context Sample.ping) _ eq_refl _).
  left.
  exists (fst (routeMessageThroughWindow (Sample.state_with (JStr "ns") ∅ ∅) Sample.ping)),
         [PortMessage 0].
  split.
  - right. left. reflexivity.
  - intros [H|[]]. discriminate H.
Defined.

(** A module whose namespace was never set answers the probe that carries
    no scope. *)
Example unset_namespace_acknowledges_scopeless_probe :
  exists h,
    Relay.handleWindowOnMessage (host := Sample.window_host) 0
      (Sample.state_with JUndefined ∅ ∅) (SampleRelay.probe JUndefined)
    = Some h /\
    Relay.acknowledged h = Some 4.
Proof. eexists. split; reflexivity. Qed.

Lemma request_through_the_window_is_answered_witness :
  exists h sent,
    Relay.handleWindowOnMessage (host := Sample.window_host) 2
      (Sample.state_with (JStr "ns") ∅ {["ping" := Sample.pong_handler]})
      (SampleRelay.routed (JStr "ns") Sample.ping)
    = Some h /\
    Relay.acknowledged h = None /\
    Relay.settled h = Fulfilled /\
    trace (Relay.state h)
    = [] ++ [Invoke (messageID Sample.ping) (handler_argument Sample.ping);
             PostVerify (JStr "ns") context 0] /\
    posted (trace (fst (deliver (Relay.state h) (PortMessage 0))))
    = posted [] ++ [PostRoute (JStr "ns") context sent] /\
    messageType sent = "reply" /\
    data sent = JObj None [("n", (true, JNum 2))] /\
    destination sent = Some Sample.content_script /\
    transactionId sent = transactionId Sample.ping /\
    messageID sent = messageID Sample.ping /\
    err sent = err Sample.ping /\
    hops sent = ["w1"].
Proof.
  refine (request_through_the_window_is_answered (host := Sample.window_host) 0
            (Sample.state_with (JStr "ns") ∅ {["ping" := Sample.pong_handler]})
            (SampleRelay.routed (JStr "ns") Sample.ping) "content-script"
            Sample.ping Sample.content_script Sample.pong_handler
            (JObj None [("n", (true, JNum 2))])
            eq_refl eq_refl nonempty_ns eq_refl _ eq_refl eq_refl eq_refl eq_refl eq_refl
            _ _ eq_refl).
  - discriminate.
  - intros H%list_elem_of_In. vm_compute in H. destruct H as [H|[]]. discriminate H.
  - vm_compute. reflexivity.
Defined.

Lemma reply_through_the_window_settles_witness :
  exists h,
    Relay.handleWindowOnMessage (host := Sample.window_host) 1
      (Sample.state_with (JStr "ns") {["t1" := 7]} ∅)
      (SampleRelay.routed (JStr "ns") (SampleRelay.answer JUndefined))
    = Some h /\
    Relay.acknowledged h = None /\
    Relay.settled h = Fulfilled /\
    trace (Relay.state h)
    = [] ++ [if truthy (err (SampleRelay.answer JUndefined)) then Reject 7 JUndefined
             else Resolve 7 (data (SampleRelay.answer JUndefined))] /\
    openTransactions (Relay.state h)
    = delete (transactionId (SampleRelay.answer JUndefined)) {["t1" := 7]} /\
    attempts (Relay.state h) = [].
Proof.
  refine (reply_through_the_window_settles (host := Sample.window_host) 0
            (Sample.state_with (JStr "ns") {["t1" := 7]} ∅)
            (SampleRelay.routed (JStr "ns") (SampleRelay.answer JUndefined))
            (SampleRelay.answer JUndefined) 7 JUndefined
            eq_refl eq_refl _ eq_refl eq_refl eq_refl _ _ _).
  - discriminate.
  - intros H%list_elem_of_In. vm_compute in H. destruct H as [H|[]]. discriminate H.
  - vm_compute. reflexivity.
  - discriminate.
Defined.

Lemma unset_namespace_handles_but_cannot_answer_witness :
  Relay.handleWindowOnMessage (host := Sample.window_host) 2
    (Sample.state_with JUndefined ∅ {["ping" := Sample.pong_handler]})
    (SampleRelay.routed JUndefined Sample.ping)
  = Some {| Relay.state :=
              emit (emit (Sample.state_with JUndefined ∅ {["ping" := Sample.pong_handler]})
                         (Invoke (messageID Sample.ping) (handler_argument Sample.ping)))
                   (UnhandledRejection (error_instance "Error" namespace_error_message));
            Relay.acknowledged := None;
            Relay.settled := Fulfilled |}.
Proof.
  refine (unset_namespace_handles_but_cannot_answer (host := Sample.window_host) 0
            (Sample.state_with JUndefined ∅ {["ping" := Sample.pong_handler]})
            (SampleRelay.routed JUndefined Sample.ping) "content-script"
            Sample.ping Sample.content_script Sample.pong_handler
            (JObj None [("n", (true, JNum 2))])
            eq_refl eq_refl _ eq_refl _ eq_refl eq_refl eq_refl eq_refl eq_refl
            _ _ eq_refl).
  - intros (s & Hs & _). discriminate Hs.
  - discriminate.
  - intros H%list_elem_of_In. vm_compute in H. destruct H as [H|[]]. discriminate H.
  - vm_compute. reflexivity.
Defined.

End MoreRuns.
